(** * optedit: cost-optimal edit sequences between two strings

    A shallow embedding of [optedit.cc].  The repository holds two versions
    of the program, which differ in the direction of the comparisons of the
    recurrence, in the payload of an [Edit] and in the indexing of the
    replay loop:

    - [MinEdit]: the first version (comparisons with [<], an [Edit] carries
      [from_ch] and [to_ch], the replay reads [edit_matrix[to_idx][from_idx]]);
    - [MaxEdit]: the second version (comparisons with [>], an [Edit] carries
      one [ch], the replay reads [edit_matrix[to_idx + 1][from_idx + 1]]).

    C++ [unsigned] is modelled as [Z] reduced modulo [2^32]; an
    out-of-range [operator[]] is the outcome [Undef]; the [while] loop of
    the replay runs on fuel and reports [Timeout] when the fuel is used up. *)

From Stdlib Require Import ZArith Lia Bool String Ascii.
From stdpp Require Import base list strings.

Open Scope Z_scope.

(* ===================================================================== *)
(** * Part I: definitions *)
(* ===================================================================== *)

(** ** Machine arithmetic: C++ [unsigned] *)

Definition uint_modulus : Z := 4294967296.

Definition uwrap (x : Z) : Z := x mod uint_modulus.
Definition uadd (a b : Z) : Z := uwrap (a + b).
Definition usub (a b : Z) : Z := uwrap (a - b).
Definition umul (a b : Z) : Z := uwrap (a * b).

(** ** Outcomes of a computation *)

Inductive outcome (A : Type) : Type :=
| Ret (a : A)   (* normal completion *)
| Undef         (* undefined behaviour: operator[] out of range *)
| Timeout.      (* the fuel of a while loop is used up *)

Arguments Ret {A} a.
Arguments Undef {A}.
Arguments Timeout {A}.

#[export] Instance outcome_ret : MRet outcome := @Ret.
#[export] Instance outcome_bind : MBind outcome := fun A B f m =>
  match m with
  | Ret a => f a
  | Undef => Undef
  | Timeout => Timeout
  end.

(** ** Strings and vectors *)

(** [s[idx]] on a [std::string]; only indices below the length are used. *)
Definition str_at (s : string) (idx : Z) : outcome ascii :=
  match String.get (Z.to_nat idx) s with
  | Some c => Ret c
  | None => Undef
  end.

(** [s.length ()] stored into an [unsigned]. *)
Definition str_length (s : string) : Z := uwrap (Z.of_nat (String.length s)).

(** [std::vector<std::vector<N> >] *)
Abbreviation matrix N := (list (list N)).

(** [edit_matrix[r][c]] as an rvalue *)
Definition mget {N} (edit_matrix : matrix N) (r c : Z) : outcome N :=
  match edit_matrix !! Z.to_nat r with
  | Some row =>
      match row !! Z.to_nat c with
      | Some node => Ret node
      | None => Undef
      end
  | None => Undef
  end.

(** [edit_matrix[r][c] = node] *)
Definition mset {N} (edit_matrix : matrix N) (r c : Z) (node : N)
  : outcome (matrix N) :=
  match edit_matrix !! Z.to_nat r with
  | Some row =>
      if decide (Z.to_nat c < length row)%nat
      then Ret (<[Z.to_nat r := <[Z.to_nat c := node]> row]> edit_matrix)
      else Undef
  | None => Undef
  end.

(** ** Counted loops: [for (unsigned i = 0; i < bound; i++) body] *)

Fixpoint for_each {S : Type} (idxs : list Z) (body : Z -> S -> outcome S)
  (s : S) : outcome S :=
  match idxs with
  | [] => Ret s
  | i :: rest => s' ← body i s; for_each rest body s'
  end.

Definition for_loop {S : Type} (bound : Z) (body : Z -> S -> outcome S)
  (s : S) : outcome S :=
  for_each (seqZ 0 bound) body s.

(** ** Types shared by both versions *)

Inductive EditType : Type := SKIP | DELETE | INSERT | REPLACE.

#[export] Instance EditType_eq_dec : EqDecision EditType.
Proof. solve_decision. Defined.

(** [std::array<unsigned, 4>], indexed by the enumerators *)
Record EditCosts : Type := mkEditCosts {
  cost_SKIP : Z;
  cost_DELETE : Z;
  cost_INSERT : Z;
  cost_REPLACE : Z
}.

Definition cost_at (costs : EditCosts) (t : EditType) : Z :=
  match t with
  | SKIP => cost_SKIP costs
  | DELETE => cost_DELETE costs
  | INSERT => cost_INSERT costs
  | REPLACE => cost_REPLACE costs
  end.

Definition edit_type_names (t : EditType) : string :=
  match t with
  | SKIP => "SKP"
  | DELETE => "DEL"
  | INSERT => "INS"
  | REPLACE => "REP"
  end.

Definition nl : string := String "010"%char EmptyString.
Definition str1 (c : ascii) : string := String c EmptyString.

(** The lines of an output, one after the other. *)
Definition lines (l : list string) : string :=
  fold_right String.append EmptyString l.

(** What a run of [main] leaves behind. *)
Record process : Type := mkProcess {
  exit_status : Z;
  stdout : string;
  stderr : string
}.

(** The matrix as allocated: [to_length + 1] rows of [from_length + 1]
    default-constructed nodes. *)
Definition alloc_matrix {N} (default_node : N) (from_length to_length : Z)
  : outcome (matrix N) :=
  for_loop (uadd to_length 1)
    (fun _ edit_matrix =>
       Ret (edit_matrix ++ [replicate (Z.to_nat (uadd from_length 1)) default_node]))
    [].

(** ** First version of the program *)

Module MinEdit.

Definition std_edit_costs : EditCosts := mkEditCosts 1 10 15 5.

Record Edit : Type := mkEdit {
  type : EditType;
  from_ch : ascii;
  to_ch : ascii
}.

Definition edit_rep (edit : Edit) : string :=
  let rep := edit_type_names (type edit) in
  let rep :=
    if decide (type edit <> INSERT)
    then (rep ++ " " ++ str1 (from_ch edit))%string else rep in
  let rep :=
    if decide (type edit <> DELETE /\ type edit <> SKIP)
    then (rep ++ " " ++ str1 (to_ch edit))%string else rep in
  rep.

Record EditNode : Type := mkEditNode {
  edit : Edit;
  cost : Z
}.

(** [EditNode ()] *)
Definition EditNode_default : EditNode := mkEditNode (mkEdit SKIP zero zero) 0.

(** [EditNode (type, from_ch, to_ch, _cost)] *)
Definition EditNode_new (t : EditType) (f t' : ascii) (c : Z) : EditNode :=
  mkEditNode (mkEdit t f t') c.

(** The initial row: deleting everything in [from]. *)
Definition init_first_row (from : string) (costs : EditCosts)
  (from_length : Z) (edit_matrix : matrix EditNode) : outcome (matrix EditNode) :=
  for_loop from_length
    (fun from_idx edit_matrix =>
       fc ← str_at from from_idx;
       mset edit_matrix 0 (uadd from_idx 1)
         (EditNode_new DELETE fc zero
            (umul (uadd from_idx 1) (cost_at costs DELETE))))
    edit_matrix.

(** The choice among the three candidates. *)
Definition choose_edit (ins_cost del_cost rep_cost : Z) (rep_type : EditType)
  : Z * EditType :=
  if (ins_cost <? del_cost) && (ins_cost <? rep_cost)
  then (ins_cost, INSERT)
  else if del_cost <? rep_cost
  then (del_cost, DELETE)
  else (rep_cost, rep_type).

(** One iteration of the inner loop. *)
Definition fill_cell (from to : string) (costs : EditCosts)
  (to_idx from_idx : Z) (edit_matrix : matrix EditNode)
  : outcome (matrix EditNode) :=
  fc ← str_at from from_idx;
  tc ← str_at to to_idx;
  let rep_type := if Ascii.eqb fc tc then SKIP else REPLACE in
  n_ins ← mget edit_matrix (uadd (usub to_idx 1) 1) (uadd from_idx 1);
  let ins_cost := uadd (cost n_ins) (cost_at costs INSERT) in
  n_del ← mget edit_matrix (uadd to_idx 1) (uadd (usub from_idx 1) 1);
  let del_cost := uadd (cost n_del) (cost_at costs DELETE) in
  n_rep ← mget edit_matrix (uadd (usub to_idx 1) 1) (uadd (usub from_idx 1) 1);
  let rep_cost := uadd (cost n_rep) (cost_at costs rep_type) in
  let chosen := choose_edit ins_cost del_cost rep_cost rep_type in
  mset edit_matrix (uadd to_idx 1) (uadd from_idx 1)
    (EditNode_new (snd chosen) fc tc (fst chosen)).

(** One iteration of the outer loop. *)
Definition fill_row (from to : string) (costs : EditCosts) (from_length : Z)
  (to_idx : Z) (edit_matrix : matrix EditNode) : outcome (matrix EditNode) :=
  tc ← str_at to to_idx;
  edit_matrix ← mset edit_matrix (uadd to_idx 1) 0
    (EditNode_new INSERT zero tc
       (umul (uadd to_idx 1) (cost_at costs INSERT)));
  for_loop from_length (fill_cell from to costs to_idx) edit_matrix.

(** The cost matrix as it stands when the replay starts. *)
Definition build_matrix (from to : string) (costs : EditCosts)
  : outcome (matrix EditNode) :=
  let from_length := str_length from in
  let to_length := str_length to in
  edit_matrix ← alloc_matrix EditNode_default from_length to_length;
  edit_matrix ← init_first_row from costs from_length edit_matrix;
  for_loop to_length (fill_row from to costs from_length) edit_matrix.

(** The replay loop: [while (from_idx > 0 || to_idx > 0)]. *)
Fixpoint replay (fuel : nat) (edit_matrix : matrix EditNode)
  (from_idx to_idx : Z) (result : list Edit) : outcome (list Edit) :=
  if (0 <? from_idx) || (0 <? to_idx) then
    match fuel with
    | O => Timeout
    | S fuel' =>
        node ← mget edit_matrix to_idx from_idx;
        let e := edit node in
        let result := e :: result in
        let from_idx := if decide (type e <> INSERT) then usub from_idx 1 else from_idx in
        let to_idx := if decide (type e <> DELETE) then usub to_idx 1 else to_idx in
        replay fuel' edit_matrix from_idx to_idx result
    end
  else Ret result.

Definition compute_optimal_edits (fuel : nat) (from to : string)
  (costs : EditCosts) : outcome (list Edit) :=
  edit_matrix ← build_matrix from to costs;
  replay fuel edit_matrix (str_length from) (str_length to) [].

(** The cells [(row, column)] the replay loop reads, in order. *)
Fixpoint replay_reads (fuel : nat) (edit_matrix : matrix EditNode)
  (from_idx to_idx : Z) : list (Z * Z) :=
  if (0 <? from_idx) || (0 <? to_idx) then
    match fuel with
    | O => []
    | S fuel' =>
        (to_idx, from_idx) ::
        match mget edit_matrix to_idx from_idx with
        | Ret node =>
            let e := edit node in
            replay_reads fuel' edit_matrix
              (if decide (type e <> INSERT) then usub from_idx 1 else from_idx)
              (if decide (type e <> DELETE) then usub to_idx 1 else to_idx)
        | _ => []
        end
    end
  else [].

(** [for (const Edit &edit : edits) std::cout << edit_rep (edit) << '\n';] *)
Definition print_edits (edits : list Edit) : string :=
  fold_left (fun out edit => (out ++ edit_rep edit ++ nl)%string) edits EmptyString.

(** [main]: [argv] holds the [argc] arguments, [argv[0]] first. *)
Definition main (fuel : nat) (argv : list string) : outcome process :=
  if decide (length argv <> 3%nat) then
    match argv with
    | prog :: _ =>
        Ret (mkProcess 1 EmptyString ("Usage: " ++ prog ++ " FROM TO" ++ nl)%string)
    | [] => Undef
    end
  else
    match argv with
    | [_; from; to] =>
        edits ← compute_optimal_edits fuel from to std_edit_costs;
        Ret (mkProcess 0 (print_edits edits) EmptyString)
    | _ => Undef
    end.

(** The matrix at the start of the iteration [(to_idx, from_idx)] of the
    inner loop: the loops of [build_matrix] run up to that point. *)
Definition matrix_before (from to : string) (costs : EditCosts)
  (to_idx from_idx : Z) : outcome (matrix EditNode) :=
  let from_length := str_length from in
  let to_length := str_length to in
  edit_matrix ← alloc_matrix EditNode_default from_length to_length;
  edit_matrix ← init_first_row from costs from_length edit_matrix;
  edit_matrix ← for_loop to_idx (fill_row from to costs from_length) edit_matrix;
  tc ← str_at to to_idx;
  edit_matrix ← mset edit_matrix (uadd to_idx 1) 0
    (EditNode_new INSERT zero tc
       (umul (uadd to_idx 1) (cost_at costs INSERT)));
  for_loop from_idx (fill_cell from to costs to_idx) edit_matrix.

(** A run of the replay loop, as a relation: from the cursor
    [(from_idx, to_idx)] and the list [result] the loop ends with [final]. *)
Inductive replay_run (edit_matrix : matrix EditNode)
  : Z -> Z -> list Edit -> list Edit -> Prop :=
| replay_exit from_idx to_idx result :
    (0 <? from_idx) || (0 <? to_idx) = false ->
    replay_run edit_matrix from_idx to_idx result result
| replay_iter from_idx to_idx result node final :
    (0 <? from_idx) || (0 <? to_idx) = true ->
    mget edit_matrix to_idx from_idx = Ret node ->
    replay_run edit_matrix
      (if decide (type (edit node) <> INSERT) then usub from_idx 1 else from_idx)
      (if decide (type (edit node) <> DELETE) then usub to_idx 1 else to_idx)
      (edit node :: result) final ->
    replay_run edit_matrix from_idx to_idx result final.

(** A run of [compute_optimal_edits] that returns [edits]. *)
Definition returns (from to : string) (costs : EditCosts) (edits : list Edit)
  : Prop :=
  exists edit_matrix,
    build_matrix from to costs = Ret edit_matrix /\
    replay_run edit_matrix (str_length from) (str_length to) [] edits.

(** Sum of the configured costs of the operations, in [unsigned]. *)
Definition total_cost (costs : EditCosts) (edits : list Edit) : Z :=
  fold_right (fun e acc => uadd (cost_at costs (type e)) acc) 0 edits.

(** The same sum in unbounded integers. *)
Definition exact_cost (costs : EditCosts) (edits : list Edit) : Z :=
  fold_right (fun e acc => cost_at costs (type e) + acc) 0 edits.

Definition count_not (t : EditType) (edits : list Edit) : nat :=
  length (filter (fun e => type e <> t) edits).

Definition skip_of (c : ascii) : Edit := mkEdit SKIP c c.

End MinEdit.

(** ** Second version of the program *)

Module MaxEdit.

Definition std_edit_costs : EditCosts := mkEditCosts 1 10 10 2.

Record Edit : Type := mkEdit {
  type : EditType;
  ch : ascii
}.

Record EditNode : Type := mkEditNode {
  edit : Edit;
  cost : Z
}.

(** [EditNode ()] *)
Definition EditNode_default : EditNode := mkEditNode (mkEdit SKIP zero) 0.

(** [EditNode (type, ch, _cost)] *)
Definition EditNode_new (t : EditType) (c : ascii) (k : Z) : EditNode :=
  mkEditNode (mkEdit t c) k.

Definition init_first_row (costs : EditCosts)
  (from_length : Z) (edit_matrix : matrix EditNode) : outcome (matrix EditNode) :=
  for_loop from_length
    (fun from_idx edit_matrix =>
       mset edit_matrix 0 (uadd from_idx 1)
         (EditNode_new DELETE zero
            (umul (uadd from_idx 1) (cost_at costs DELETE))))
    edit_matrix.

Definition choose_edit (ins_cost del_cost rep_cost : Z) (rep_type : EditType)
  : Z * EditType :=
  if (ins_cost >? del_cost) && (ins_cost >? rep_cost)
  then (ins_cost, INSERT)
  else if del_cost >? rep_cost
  then (del_cost, DELETE)
  else (rep_cost, rep_type).

Definition fill_cell (from to : string) (costs : EditCosts)
  (to_idx from_idx : Z) (edit_matrix : matrix EditNode)
  : outcome (matrix EditNode) :=
  fc ← str_at from from_idx;
  tc ← str_at to to_idx;
  let rep_type := if Ascii.eqb fc tc then SKIP else REPLACE in
  n_ins ← mget edit_matrix (uadd (usub to_idx 1) 1) (uadd from_idx 1);
  let ins_cost := uadd (cost n_ins) (cost_at costs INSERT) in
  n_del ← mget edit_matrix (uadd to_idx 1) (uadd (usub from_idx 1) 1);
  let del_cost := uadd (cost n_del) (cost_at costs DELETE) in
  n_rep ← mget edit_matrix (uadd (usub to_idx 1) 1) (uadd (usub from_idx 1) 1);
  let rep_cost := uadd (cost n_rep) (cost_at costs rep_type) in
  let chosen := choose_edit ins_cost del_cost rep_cost rep_type in
  mset edit_matrix (uadd to_idx 1) (uadd from_idx 1)
    (EditNode_new (snd chosen) tc (fst chosen)).

Definition fill_row (from to : string) (costs : EditCosts) (from_length : Z)
  (to_idx : Z) (edit_matrix : matrix EditNode) : outcome (matrix EditNode) :=
  tc ← str_at to to_idx;
  edit_matrix ← mset edit_matrix (uadd to_idx 1) 0
    (EditNode_new INSERT tc
       (umul (uadd to_idx 1) (cost_at costs INSERT)));
  for_loop from_length (fill_cell from to costs to_idx) edit_matrix.

Definition build_matrix (from to : string) (costs : EditCosts)
  : outcome (matrix EditNode) :=
  let from_length := str_length from in
  let to_length := str_length to in
  edit_matrix ← alloc_matrix EditNode_default from_length to_length;
  edit_matrix ← init_first_row costs from_length edit_matrix;
  for_loop to_length (fill_row from to costs from_length) edit_matrix.

(** The replay loop of this version reads
    [edit_matrix[to_idx + 1][from_idx + 1]]. *)
Fixpoint replay (fuel : nat) (edit_matrix : matrix EditNode)
  (from_idx to_idx : Z) (result : list Edit) : outcome (list Edit) :=
  if (0 <? from_idx) || (0 <? to_idx) then
    match fuel with
    | O => Timeout
    | S fuel' =>
        node ← mget edit_matrix (uadd to_idx 1) (uadd from_idx 1);
        let e := edit node in
        let result := e :: result in
        let from_idx := if decide (type e <> INSERT) then usub from_idx 1 else from_idx in
        let to_idx := if decide (type e <> DELETE) then usub to_idx 1 else to_idx in
        replay fuel' edit_matrix from_idx to_idx result
    end
  else Ret result.

Definition compute_optimal_edits (fuel : nat) (from to : string)
  (costs : EditCosts) : outcome (list Edit) :=
  edit_matrix ← build_matrix from to costs;
  replay fuel edit_matrix (str_length from) (str_length to) [].

(** The cells [(row, column)] the replay loop reads, in order. *)
Fixpoint replay_reads (fuel : nat) (edit_matrix : matrix EditNode)
  (from_idx to_idx : Z) : list (Z * Z) :=
  if (0 <? from_idx) || (0 <? to_idx) then
    match fuel with
    | O => []
    | S fuel' =>
        (uadd to_idx 1, uadd from_idx 1) ::
        match mget edit_matrix (uadd to_idx 1) (uadd from_idx 1) with
        | Ret node =>
            let e := edit node in
            replay_reads fuel' edit_matrix
              (if decide (type e <> INSERT) then usub from_idx 1 else from_idx)
              (if decide (type e <> DELETE) then usub to_idx 1 else to_idx)
        | _ => []
        end
    end
  else [].

(** The line [main] prints for one edit:
    [std::cout << edit_type_names[edit.type] << " " << edit.ch << '\n'] *)
Definition edit_line (edit : Edit) : string :=
  (edit_type_names (type edit) ++ " " ++ str1 (ch edit) ++ nl)%string.

Definition print_edits (edits : list Edit) : string :=
  fold_left (fun out edit => (out ++ edit_line edit)%string) edits EmptyString.

Definition main (fuel : nat) (argv : list string) : outcome process :=
  if decide (length argv <> 3%nat) then
    match argv with
    | prog :: _ =>
        Ret (mkProcess 1 EmptyString ("Usage: " ++ prog ++ " FROM TO" ++ nl)%string)
    | [] => Undef
    end
  else
    match argv with
    | [_; from; to] =>
        edits ← compute_optimal_edits fuel from to std_edit_costs;
        Ret (mkProcess 0 (print_edits edits) EmptyString)
    | _ => Undef
    end.

Definition matrix_before (from to : string) (costs : EditCosts)
  (to_idx from_idx : Z) : outcome (matrix EditNode) :=
  let from_length := str_length from in
  let to_length := str_length to in
  edit_matrix ← alloc_matrix EditNode_default from_length to_length;
  edit_matrix ← init_first_row costs from_length edit_matrix;
  edit_matrix ← for_loop to_idx (fill_row from to costs from_length) edit_matrix;
  tc ← str_at to to_idx;
  edit_matrix ← mset edit_matrix (uadd to_idx 1) 0
    (EditNode_new INSERT tc
       (umul (uadd to_idx 1) (cost_at costs INSERT)));
  for_loop from_idx (fill_cell from to costs to_idx) edit_matrix.

End MaxEdit.

(** ** The recurrence both versions share

    The two versions fill the matrix by the same loops; they differ in the
    node they store and in the comparison.  [engine] names these
    differences, [Engine] is the common fill over them, and
    [Engine.spec_cell] is the matrix as a function of the cell. *)

Record engine (N : Type) : Type := mkEngine {
  node_cost : N -> Z;
  node_type : N -> EditType;
  default_node : N;
  row0_node : ascii -> Z -> N;
  col0_node : ascii -> Z -> N;
  cell_node : EditType -> ascii -> ascii -> Z -> N;
  better : Z -> Z -> bool
}.

Arguments node_cost {N} e.
Arguments node_type {N} e.
Arguments default_node {N} e.
Arguments row0_node {N} e.
Arguments col0_node {N} e.
Arguments cell_node {N} e.
Arguments better {N} e.

Class EngineLaws {N} (e : engine N) : Prop := {
  default_cost : node_cost e (default_node e) = 0;
  default_type : node_type e (default_node e) = SKIP;
  row0_cost : forall c k, node_cost e (row0_node e c k) = k;
  row0_type : forall c k, node_type e (row0_node e c k) = DELETE;
  col0_cost : forall c k, node_cost e (col0_node e c k) = k;
  col0_type : forall c k, node_type e (col0_node e c k) = INSERT;
  cell_cost : forall t f c k, node_cost e (cell_node e t f c k) = k;
  cell_type : forall t f c k, node_type e (cell_node e t f c k) = t
}.

Module Engine.

Definition choose_edit (better : Z -> Z -> bool)
  (ins_cost del_cost rep_cost : Z) (rep_type : EditType) : Z * EditType :=
  if better ins_cost del_cost && better ins_cost rep_cost
  then (ins_cost, INSERT)
  else if better del_cost rep_cost
  then (del_cost, DELETE)
  else (rep_cost, rep_type).

Definition init_first_row {N} (e : engine N) (from : string) (costs : EditCosts)
  (from_length : Z) (edit_matrix : matrix N) : outcome (matrix N) :=
  for_loop from_length
    (fun from_idx edit_matrix =>
       fc ← str_at from from_idx;
       mset edit_matrix 0 (uadd from_idx 1)
         (row0_node e fc (umul (uadd from_idx 1) (cost_at costs DELETE))))
    edit_matrix.

Definition fill_cell {N} (e : engine N) (from to : string) (costs : EditCosts)
  (to_idx from_idx : Z) (edit_matrix : matrix N) : outcome (matrix N) :=
  fc ← str_at from from_idx;
  tc ← str_at to to_idx;
  let rep_type := if Ascii.eqb fc tc then SKIP else REPLACE in
  n_ins ← mget edit_matrix (uadd (usub to_idx 1) 1) (uadd from_idx 1);
  let ins_cost := uadd (node_cost e n_ins) (cost_at costs INSERT) in
  n_del ← mget edit_matrix (uadd to_idx 1) (uadd (usub from_idx 1) 1);
  let del_cost := uadd (node_cost e n_del) (cost_at costs DELETE) in
  n_rep ← mget edit_matrix (uadd (usub to_idx 1) 1) (uadd (usub from_idx 1) 1);
  let rep_cost := uadd (node_cost e n_rep) (cost_at costs rep_type) in
  let chosen := choose_edit (better e) ins_cost del_cost rep_cost rep_type in
  mset edit_matrix (uadd to_idx 1) (uadd from_idx 1)
    (cell_node e (snd chosen) fc tc (fst chosen)).

Definition start_row {N} (e : engine N) (to : string) (costs : EditCosts)
  (to_idx : Z) (edit_matrix : matrix N) : outcome (matrix N) :=
  tc ← str_at to to_idx;
  mset edit_matrix (uadd to_idx 1) 0
    (col0_node e tc (umul (uadd to_idx 1) (cost_at costs INSERT))).

Definition fill_row {N} (e : engine N) (from to : string) (costs : EditCosts)
  (from_length : Z) (to_idx : Z) (edit_matrix : matrix N) : outcome (matrix N) :=
  edit_matrix ← start_row e to costs to_idx edit_matrix;
  for_loop from_length (fill_cell e from to costs to_idx) edit_matrix.

Definition build_matrix {N} (e : engine N) (from to : string)
  (costs : EditCosts) : outcome (matrix N) :=
  let from_length := str_length from in
  let to_length := str_length to in
  edit_matrix ← alloc_matrix (default_node e) from_length to_length;
  edit_matrix ← init_first_row e from costs from_length edit_matrix;
  for_loop to_length (fill_row e from to costs from_length) edit_matrix.

Definition matrix_before {N} (e : engine N) (from to : string)
  (costs : EditCosts) (to_idx from_idx : Z) : outcome (matrix N) :=
  let from_length := str_length from in
  let to_length := str_length to in
  edit_matrix ← alloc_matrix (default_node e) from_length to_length;
  edit_matrix ← init_first_row e from costs from_length edit_matrix;
  edit_matrix ← for_loop to_idx (fill_row e from to costs from_length) edit_matrix;
  edit_matrix ← start_row e to costs to_idx edit_matrix;
  for_loop from_idx (fill_cell e from to costs to_idx) edit_matrix.

(** The symbol at position [i], for positions below the length. *)
Definition char_at (s : string) (i : nat) : ascii :=
  match String.get i s with
  | Some c => c
  | None => zero
  end.

(** Row [S i'] of the matrix from row [i'] (the function [prev]). *)
Fixpoint spec_row {N} (e : engine N) (from : string) (costs : EditCosts)
  (prev : nat -> N) (tc : ascii) (i' : nat) (j : nat) : N :=
  match j with
  | O => col0_node e tc (umul (Z.of_nat (S i')) (cost_at costs INSERT))
  | S j' =>
      let fc := char_at from j' in
      let rep_type := if Ascii.eqb fc tc then SKIP else REPLACE in
      let ins_cost := uadd (node_cost e (prev (S j'))) (cost_at costs INSERT) in
      let del_cost :=
        uadd (node_cost e (spec_row e from costs prev tc i' j'))
             (cost_at costs DELETE) in
      let rep_cost := uadd (node_cost e (prev j')) (cost_at costs rep_type) in
      let chosen := choose_edit (better e) ins_cost del_cost rep_cost rep_type in
      cell_node e (snd chosen) fc tc (fst chosen)
  end.

(** The node of cell [(i, j)] of the finished matrix. *)
Fixpoint spec_cell {N} (e : engine N) (from to : string) (costs : EditCosts)
  (i j : nat) : N :=
  match i with
  | O =>
      match j with
      | O => default_node e
      | S j' =>
          row0_node e (char_at from j')
            (umul (Z.of_nat (S j')) (cost_at costs DELETE))
      end
  | S i' =>
      spec_row e from costs (spec_cell e from to costs i') (char_at to i') i' j
  end.

(** The matrix when the rows before [p] are filled and row [p] is filled
    up to column [q] (excluded). *)
Definition partial {N} (e : engine N) (from to : string) (costs : EditCosts)
  (p q : nat) (r c : nat) : N :=
  if ((r <? p) || ((r =? p) && (c <? q)))%nat
  then spec_cell e from to costs r c
  else default_node e.

(** [edit_matrix] has [R] rows of [C] nodes and holds [g r c] at [(r, c)]. *)
Definition grid_is {N} (edit_matrix : matrix N) (R C : nat)
  (g : nat -> nat -> N) : Prop :=
  length edit_matrix = R /\
  forall r, (r < R)%nat ->
    exists row, edit_matrix !! r = Some row /\ length row = C /\
                forall c, (c < C)%nat -> row !! c = Some (g r c).

End Engine.

(** The two versions as engines. *)
Definition min_engine : engine MinEdit.EditNode :=
  mkEngine MinEdit.EditNode
    MinEdit.cost
    (fun n => MinEdit.type (MinEdit.edit n))
    MinEdit.EditNode_default
    (fun fc k => MinEdit.EditNode_new DELETE fc zero k)
    (fun tc k => MinEdit.EditNode_new INSERT zero tc k)
    MinEdit.EditNode_new
    Z.ltb.

Definition max_engine : engine MaxEdit.EditNode :=
  mkEngine MaxEdit.EditNode
    MaxEdit.cost
    (fun n => MaxEdit.type (MaxEdit.edit n))
    MaxEdit.EditNode_default
    (fun _ k => MaxEdit.EditNode_new DELETE zero k)
    (fun tc k => MaxEdit.EditNode_new INSERT tc k)
    (fun t _ tc k => MaxEdit.EditNode_new t tc k)
    Z.gtb.

(** A string short enough for its length plus one to fit an [unsigned]. *)
Definition fits (s : string) : Prop :=
  Z.of_nat (String.length s) < uint_modulus - 1.

(** The cost models [costs] whose costs lie between 0 and [C], for strings
    short enough for no sum of [length from + length to] costs to wrap. *)
Definition no_wrap (from to : string) (costs : EditCosts) (C : Z) : Prop :=
  (forall t, 0 <= cost_at costs t <= C) /\
  Z.of_nat (String.length from + String.length to) * C < uint_modulus.

(** [costs] with the cost of REPLACE set to [r]. *)
Definition with_replace (costs : EditCosts) (r : Z) : EditCosts :=
  mkEditCosts (cost_SKIP costs) (cost_DELETE costs) (cost_INSERT costs) r.

(** ** Alignments as edit scripts *)

(** The symbols an alignment takes from [from]: the [from_ch] of the edits
    that are not INSERTs (the edits [edit_rep] prints [from_ch] for, and
    the ones for which the replay loop steps [from_idx]). *)
Definition from_symbols (edits : list MinEdit.Edit) : list ascii :=
  map MinEdit.from_ch (filter (fun e => MinEdit.type e <> INSERT) edits).

(** The symbols an alignment produces in [to]: the [to_ch] of the edits
    that are not DELETEs (the ones for which the replay loop steps
    [to_idx]). *)
Definition to_symbols (edits : list MinEdit.Edit) : list ascii :=
  map MinEdit.to_ch (filter (fun e => MinEdit.type e <> DELETE) edits).

(** A SKIP keeps a symbol, a REPLACE changes it. *)
Definition well_typed (e : MinEdit.Edit) : Prop :=
  (MinEdit.type e = SKIP -> MinEdit.from_ch e = MinEdit.to_ch e) /\
  (MinEdit.type e = REPLACE -> MinEdit.from_ch e <> MinEdit.to_ch e).

(** [edits] turns [from] into [to]. *)
Definition is_script (edits : list MinEdit.Edit) (from to : string) : Prop :=
  from_symbols edits = list_ascii_of_string from /\
  to_symbols edits = list_ascii_of_string to /\
  Forall well_typed edits.

(** The edits of the first column and of the first row. *)
Definition insert_of (c : ascii) : MinEdit.Edit := MinEdit.mkEdit INSERT zero c.
Definition delete_of (c : ascii) : MinEdit.Edit := MinEdit.mkEdit DELETE c zero.

(** [costs] with the costs of DELETE and INSERT exchanged. *)
Definition swap_costs (costs : EditCosts) : EditCosts :=
  mkEditCosts (cost_SKIP costs) (cost_INSERT costs) (cost_DELETE costs)
    (cost_REPLACE costs).

(** The line [main] writes to [std::cerr] on a wrong argument count. *)
Definition usage (prog : string) : string :=
  ("Usage: " ++ prog ++ " FROM TO" ++ nl)%string.

(** ** The assignments of the fill, logged

    The fill of each version once more, statement by statement, on a
    matrix paired with the log of the cells its assignments
    [edit_matrix[r][c] = ...] have stored into, in order.  The allocation
    constructs the nodes and assigns none: the log starts empty. *)

(** [edit_matrix[r][c] = node], and the cell added to the log. *)
Definition mset_log {N} (st : matrix N * list (Z * Z)) (r c : Z) (node : N)
  : outcome (matrix N * list (Z * Z)) :=
  edit_matrix ← mset (fst st) r c node;
  Ret (edit_matrix, snd st ++ [(r, c)]).

Module MinTrace.

Definition init_first_row (from : string) (costs : EditCosts) (from_length : Z)
  (st : matrix MinEdit.EditNode * list (Z * Z))
  : outcome (matrix MinEdit.EditNode * list (Z * Z)) :=
  for_loop from_length
    (fun from_idx st =>
       fc ← str_at from from_idx;
       mset_log st 0 (uadd from_idx 1)
         (MinEdit.EditNode_new DELETE fc zero
            (umul (uadd from_idx 1) (cost_at costs DELETE))))
    st.

Definition fill_cell (from to : string) (costs : EditCosts)
  (to_idx from_idx : Z) (st : matrix MinEdit.EditNode * list (Z * Z))
  : outcome (matrix MinEdit.EditNode * list (Z * Z)) :=
  fc ← str_at from from_idx;
  tc ← str_at to to_idx;
  let rep_type := if Ascii.eqb fc tc then SKIP else REPLACE in
  n_ins ← mget (fst st) (uadd (usub to_idx 1) 1) (uadd from_idx 1);
  let ins_cost := uadd (MinEdit.cost n_ins) (cost_at costs INSERT) in
  n_del ← mget (fst st) (uadd to_idx 1) (uadd (usub from_idx 1) 1);
  let del_cost := uadd (MinEdit.cost n_del) (cost_at costs DELETE) in
  n_rep ← mget (fst st) (uadd (usub to_idx 1) 1) (uadd (usub from_idx 1) 1);
  let rep_cost := uadd (MinEdit.cost n_rep) (cost_at costs rep_type) in
  let chosen := MinEdit.choose_edit ins_cost del_cost rep_cost rep_type in
  mset_log st (uadd to_idx 1) (uadd from_idx 1)
    (MinEdit.EditNode_new (snd chosen) fc tc (fst chosen)).

Definition fill_row (from to : string) (costs : EditCosts) (from_length : Z)
  (to_idx : Z) (st : matrix MinEdit.EditNode * list (Z * Z))
  : outcome (matrix MinEdit.EditNode * list (Z * Z)) :=
  tc ← str_at to to_idx;
  st ← mset_log st (uadd to_idx 1) 0
    (MinEdit.EditNode_new INSERT zero tc
       (umul (uadd to_idx 1) (cost_at costs INSERT)));
  for_loop from_length (fill_cell from to costs to_idx) st.

(** The finished matrix and every assignment of the fill. *)
Definition build_matrix (from to : string) (costs : EditCosts)
  : outcome (matrix MinEdit.EditNode * list (Z * Z)) :=
  let from_length := str_length from in
  let to_length := str_length to in
  edit_matrix ← alloc_matrix MinEdit.EditNode_default from_length to_length;
  st ← init_first_row from costs from_length (edit_matrix, []);
  for_loop to_length (fill_row from to costs from_length) st.

(** The matrix and the assignments made when the iteration
    [(to_idx, from_idx)] of the inner loop starts. *)
Definition matrix_before (from to : string) (costs : EditCosts)
  (to_idx from_idx : Z) : outcome (matrix MinEdit.EditNode * list (Z * Z)) :=
  let from_length := str_length from in
  let to_length := str_length to in
  edit_matrix ← alloc_matrix MinEdit.EditNode_default from_length to_length;
  st ← init_first_row from costs from_length (edit_matrix, []);
  st ← for_loop to_idx (fill_row from to costs from_length) st;
  tc ← str_at to to_idx;
  st ← mset_log st (uadd to_idx 1) 0
    (MinEdit.EditNode_new INSERT zero tc
       (umul (uadd to_idx 1) (cost_at costs INSERT)));
  for_loop from_idx (fill_cell from to costs to_idx) st.

End MinTrace.

Module MaxTrace.

Definition init_first_row (costs : EditCosts) (from_length : Z)
  (st : matrix MaxEdit.EditNode * list (Z * Z))
  : outcome (matrix MaxEdit.EditNode * list (Z * Z)) :=
  for_loop from_length
    (fun from_idx st =>
       mset_log st 0 (uadd from_idx 1)
         (MaxEdit.EditNode_new DELETE zero
            (umul (uadd from_idx 1) (cost_at costs DELETE))))
    st.

Definition fill_cell (from to : string) (costs : EditCosts)
  (to_idx from_idx : Z) (st : matrix MaxEdit.EditNode * list (Z * Z))
  : outcome (matrix MaxEdit.EditNode * list (Z * Z)) :=
  fc ← str_at from from_idx;
  tc ← str_at to to_idx;
  let rep_type := if Ascii.eqb fc tc then SKIP else REPLACE in
  n_ins ← mget (fst st) (uadd (usub to_idx 1) 1) (uadd from_idx 1);
  let ins_cost := uadd (MaxEdit.cost n_ins) (cost_at costs INSERT) in
  n_del ← mget (fst st) (uadd to_idx 1) (uadd (usub from_idx 1) 1);
  let del_cost := uadd (MaxEdit.cost n_del) (cost_at costs DELETE) in
  n_rep ← mget (fst st) (uadd (usub to_idx 1) 1) (uadd (usub from_idx 1) 1);
  let rep_cost := uadd (MaxEdit.cost n_rep) (cost_at costs rep_type) in
  let chosen := MaxEdit.choose_edit ins_cost del_cost rep_cost rep_type in
  mset_log st (uadd to_idx 1) (uadd from_idx 1)
    (MaxEdit.EditNode_new (snd chosen) tc (fst chosen)).

Definition fill_row (from to : string) (costs : EditCosts) (from_length : Z)
  (to_idx : Z) (st : matrix MaxEdit.EditNode * list (Z * Z))
  : outcome (matrix MaxEdit.EditNode * list (Z * Z)) :=
  tc ← str_at to to_idx;
  st ← mset_log st (uadd to_idx 1) 0
    (MaxEdit.EditNode_new INSERT tc
       (umul (uadd to_idx 1) (cost_at costs INSERT)));
  for_loop from_length (fill_cell from to costs to_idx) st.

Definition build_matrix (from to : string) (costs : EditCosts)
  : outcome (matrix MaxEdit.EditNode * list (Z * Z)) :=
  let from_length := str_length from in
  let to_length := str_length to in
  edit_matrix ← alloc_matrix MaxEdit.EditNode_default from_length to_length;
  st ← init_first_row costs from_length (edit_matrix, []);
  for_loop to_length (fill_row from to costs from_length) st.

Definition matrix_before (from to : string) (costs : EditCosts)
  (to_idx from_idx : Z) : outcome (matrix MaxEdit.EditNode * list (Z * Z)) :=
  let from_length := str_length from in
  let to_length := str_length to in
  edit_matrix ← alloc_matrix MaxEdit.EditNode_default from_length to_length;
  st ← init_first_row costs from_length (edit_matrix, []);
  st ← for_loop to_idx (fill_row from to costs from_length) st;
  tc ← str_at to to_idx;
  st ← mset_log st (uadd to_idx 1) 0
    (MaxEdit.EditNode_new INSERT tc
       (umul (uadd to_idx 1) (cost_at costs INSERT)));
  for_loop from_idx (fill_cell from to costs to_idx) st.

End MaxTrace.

(** The logged fill over an engine. *)
Module EngineTrace.

Definition init_first_row {N} (e : engine N) (from : string) (costs : EditCosts)
  (from_length : Z) (st : matrix N * list (Z * Z))
  : outcome (matrix N * list (Z * Z)) :=
  for_loop from_length
    (fun from_idx st =>
       fc ← str_at from from_idx;
       mset_log st 0 (uadd from_idx 1)
         (row0_node e fc (umul (uadd from_idx 1) (cost_at costs DELETE))))
    st.

Definition fill_cell {N} (e : engine N) (from to : string) (costs : EditCosts)
  (to_idx from_idx : Z) (st : matrix N * list (Z * Z))
  : outcome (matrix N * list (Z * Z)) :=
  fc ← str_at from from_idx;
  tc ← str_at to to_idx;
  let rep_type := if Ascii.eqb fc tc then SKIP else REPLACE in
  n_ins ← mget (fst st) (uadd (usub to_idx 1) 1) (uadd from_idx 1);
  let ins_cost := uadd (node_cost e n_ins) (cost_at costs INSERT) in
  n_del ← mget (fst st) (uadd to_idx 1) (uadd (usub from_idx 1) 1);
  let del_cost := uadd (node_cost e n_del) (cost_at costs DELETE) in
  n_rep ← mget (fst st) (uadd (usub to_idx 1) 1) (uadd (usub from_idx 1) 1);
  let rep_cost := uadd (node_cost e n_rep) (cost_at costs rep_type) in
  let chosen := Engine.choose_edit (better e) ins_cost del_cost rep_cost rep_type in
  mset_log st (uadd to_idx 1) (uadd from_idx 1)
    (cell_node e (snd chosen) fc tc (fst chosen)).

Definition start_row {N} (e : engine N) (to : string) (costs : EditCosts)
  (to_idx : Z) (st : matrix N * list (Z * Z))
  : outcome (matrix N * list (Z * Z)) :=
  tc ← str_at to to_idx;
  mset_log st (uadd to_idx 1) 0
    (col0_node e tc (umul (uadd to_idx 1) (cost_at costs INSERT))).

Definition fill_row {N} (e : engine N) (from to : string) (costs : EditCosts)
  (from_length : Z) (to_idx : Z) (st : matrix N * list (Z * Z))
  : outcome (matrix N * list (Z * Z)) :=
  st ← start_row e to costs to_idx st;
  for_loop from_length (fill_cell e from to costs to_idx) st.

Definition build_matrix {N} (e : engine N) (from to : string)
  (costs : EditCosts) : outcome (matrix N * list (Z * Z)) :=
  let from_length := str_length from in
  let to_length := str_length to in
  edit_matrix ← alloc_matrix (default_node e) from_length to_length;
  st ← init_first_row e from costs from_length (edit_matrix, []);
  for_loop to_length (fill_row e from to costs from_length) st.

Definition matrix_before {N} (e : engine N) (from to : string)
  (costs : EditCosts) (to_idx from_idx : Z) : outcome (matrix N * list (Z * Z)) :=
  let from_length := str_length from in
  let to_length := str_length to in
  edit_matrix ← alloc_matrix (default_node e) from_length to_length;
  st ← init_first_row e from costs from_length (edit_matrix, []);
  st ← for_loop to_idx (fill_row e from to costs from_length) st;
  st ← start_row e to costs to_idx st;
  for_loop from_idx (fill_cell e from to costs to_idx) st.

(** The cells assigned when the rows before [p] are filled and row [p] is
    filled up to column [q] (excluded): all those cells but [(0, 0)]. *)
Definition assigned (m p q : nat) (rc : Z * Z) : Prop :=
  exists r c : nat,
    rc = (Z.of_nat r, Z.of_nat c) /\ (c <= m)%nat /\
    (r < p \/ (r = p /\ c < q))%nat /\ (r <> O \/ c <> O).

(** The state of the logged fill at that point. *)
Definition state_is {N} (e : engine N) (from to : string) (costs : EditCosts)
  (p q : nat) (st : matrix N * list (Z * Z)) : Prop :=
  Engine.grid_is (fst st) (S (String.length to)) (S (String.length from))
    (Engine.partial e from to costs p q) /\
  forall rc, rc ∈ snd st <-> assigned (String.length from) p q rc.

End EngineTrace.

(* ===================================================================== *)
(** * Part II: lemmas *)
(* ===================================================================== *)

(** ** Arithmetic *)

Lemma uwrap_small x : 0 <= x < uint_modulus -> uwrap x = x.
Proof. intros H. unfold uwrap. apply Z.mod_small. exact H. Qed.

Lemma uwrap_range x : 0 <= uwrap x < uint_modulus.
Proof. unfold uwrap. apply Z.mod_pos_bound. reflexivity. Qed.

Lemma uadd_range a b : 0 <= uadd a b < uint_modulus.
Proof. apply uwrap_range. Qed.

Lemma uadd_small a b : 0 <= a + b < uint_modulus -> uadd a b = a + b.
Proof. apply uwrap_small. Qed.

Lemma usub_small a b : 0 <= a - b < uint_modulus -> usub a b = a - b.
Proof. apply uwrap_small. Qed.

(** [x - 1 + 1] in [unsigned] is [x], also at [x = 0] where [x - 1] wraps. *)
Lemma uadd_usub_cancel x : 0 <= x < uint_modulus -> uadd (usub x 1) 1 = x.
Proof.
  intros H. unfold uadd, usub, uwrap.
  rewrite Zplus_mod_idemp_l.
  replace (x - 1 + 1) with x by lia.
  apply Z.mod_small. exact H.
Qed.

(** A product that fits an [unsigned] is not reduced. *)
Lemma umul_small a b : 0 <= a * b < uint_modulus -> umul a b = a * b.
Proof. apply uwrap_small. Qed.

Lemma uadd_uwrap_l a b : uadd (uwrap a) b = uadd a b.
Proof. unfold uadd, uwrap. apply Zplus_mod_idemp_l. Qed.

Lemma uadd_uwrap_r a b : uadd a (uwrap b) = uadd a b.
Proof. unfold uadd, uwrap. apply Zplus_mod_idemp_r. Qed.

Lemma str_length_fits s : fits s -> str_length s = Z.of_nat (String.length s).
Proof.
  unfold fits, str_length. intros H. apply uwrap_small. lia.
Qed.

(** ** Outcomes and loops *)

Lemma bind_Ret {A B} (a : A) (f : A -> outcome B) : (Ret a ≫= f) = f a.
Proof. reflexivity. Qed.

Lemma for_each_app {S} (l1 l2 : list Z) (body : Z -> S -> outcome S) s :
  for_each (l1 ++ l2) body s = (for_each l1 body s ≫= for_each l2 body).
Proof.
  revert s. induction l1 as [|i l1 IH]; intros s; simpl.
  - reflexivity.
  - destruct (body i s) as [s'| |]; simpl; [apply IH|reflexivity|reflexivity].
Qed.

Lemma for_loop_S {S} (k : nat) (body : Z -> S -> outcome S) s :
  for_loop (Z.of_nat (Datatypes.S k)) body s
  = (for_loop (Z.of_nat k) body s ≫= body (Z.of_nat k)).
Proof.
  unfold for_loop. rewrite seqZ_S, for_each_app, Z.add_0_l. simpl.
  destruct (for_each (seqZ 0 (Z.of_nat k)) body s) as [s'| |]; simpl; try reflexivity.
  destruct (body (Z.of_nat k) s'); reflexivity.
Qed.

Lemma for_loop_0 {S} (body : Z -> S -> outcome S) s : for_loop 0 body s = Ret s.
Proof. reflexivity. Qed.

(** A loop invariant [P i s]: the state [s] after [i] iterations. *)
Lemma for_loop_inv {S} (P : nat -> S -> Prop) (body : Z -> S -> outcome S)
  (k : nat) (s : S) :
  P O s ->
  (forall i s, (i < k)%nat -> P i s ->
     exists s', body (Z.of_nat i) s = Ret s' /\ P (Datatypes.S i) s') ->
  exists s', for_loop (Z.of_nat k) body s = Ret s' /\ P k s'.
Proof.
  intros H0 Hstep. induction k as [|k IH].
  - exists s. split; [reflexivity|exact H0].
  - destruct IH as (s1 & Hrun & HP).
    { intros i s0 Hi. apply Hstep. lia. }
    destruct (Hstep k s1 ltac:(lia) HP) as (s2 & Hb & HP2).
    exists s2. split; [|exact HP2].
    rewrite for_loop_S, Hrun. simpl. exact Hb.
Qed.

Lemma for_each_ext {S} (l : list Z) (f g : Z -> S -> outcome S) s :
  (forall i s, i ∈ l -> f i s = g i s) ->
  for_each l f s = for_each l g s.
Proof.
  revert s. induction l as [|i l IH]; intros s H; simpl.
  - reflexivity.
  - rewrite (H i s) by (left). destruct (g i s); simpl; try reflexivity.
    apply IH. intros j s' Hj. apply H. right. exact Hj.
Qed.

Lemma for_loop_ext {S} (k : Z) (f g : Z -> S -> outcome S) s :
  (forall i s, 0 <= i < k -> f i s = g i s) ->
  for_loop k f s = for_loop k g s.
Proof.
  intros H. apply for_each_ext. intros i s' Hi. apply H.
  apply elem_of_seqZ in Hi. lia.
Qed.

Lemma uadd_nat_S (i : nat) :
  Z.of_nat (S i) < uint_modulus -> uadd (Z.of_nat i) 1 = Z.of_nat (S i).
Proof. intros H. rewrite uadd_small; lia. Qed.

Lemma usub_nat_S (i : nat) :
  Z.of_nat (S i) < uint_modulus -> usub (Z.of_nat (S i)) 1 = Z.of_nat i.
Proof. intros H. rewrite usub_small; lia. Qed.

Lemma str_at_char_at s (i : nat) :
  (i < String.length s)%nat -> str_at s (Z.of_nat i) = Ret (Engine.char_at s i).
Proof.
  intros H. unfold str_at, Engine.char_at. rewrite Nat2Z.id.
  destruct (String.get i s) eqn:E; [reflexivity|].
  exfalso. revert i H E. induction s as [|c s IH]; intros i H E; simpl in *.
  - lia.
  - destruct i as [|i]; [discriminate|]. apply (IH i); [lia|exact E].
Qed.

(** ** Matrices as grids *)

Section Grid.
Context {N : Type}.
Implicit Types (edit_matrix : matrix N) (g : nat -> nat -> N).

Lemma grid_mget edit_matrix R C g (r c : nat) :
  Engine.grid_is edit_matrix R C g -> (r < R)%nat -> (c < C)%nat ->
  mget edit_matrix (Z.of_nat r) (Z.of_nat c) = Ret (g r c).
Proof.
  intros [_ H] Hr Hc. unfold mget. rewrite !Nat2Z.id.
  destruct (H r Hr) as (row & -> & _ & Hrow). rewrite (Hrow c Hc). reflexivity.
Qed.

Lemma grid_mget_row_out edit_matrix R C g (r : nat) (c : Z) :
  Engine.grid_is edit_matrix R C g -> (R <= r)%nat ->
  mget edit_matrix (Z.of_nat r) c = Undef.
Proof.
  intros [HR _] Hr. unfold mget. rewrite Nat2Z.id.
  rewrite (proj2 (lookup_ge_None edit_matrix r)) by lia. reflexivity.
Qed.

Lemma grid_ext edit_matrix R C g g' :
  Engine.grid_is edit_matrix R C g ->
  (forall r c, (r < R)%nat -> (c < C)%nat -> g r c = g' r c) ->
  Engine.grid_is edit_matrix R C g'.
Proof.
  intros [HR H] Hext. split; [exact HR|]. intros r Hr.
  destruct (H r Hr) as (row & Hrow & Hlen & Hc).
  exists row. split; [exact Hrow|]. split; [exact Hlen|].
  intros c Hcc. rewrite <- Hext by assumption. apply Hc. exact Hcc.
Qed.

Lemma grid_mset edit_matrix R C g (r c : nat) (v : N) :
  Engine.grid_is edit_matrix R C g -> (r < R)%nat -> (c < C)%nat ->
  exists edit_matrix',
    mset edit_matrix (Z.of_nat r) (Z.of_nat c) v = Ret edit_matrix' /\
    Engine.grid_is edit_matrix' R C
      (fun r' c' => if decide (r' = r /\ c' = c) then v else g r' c').
Proof.
  intros [HR H] Hr Hc. unfold mset. rewrite !Nat2Z.id.
  destruct (H r Hr) as (row & Hrow & Hlen & Hcells). rewrite Hrow.
  destruct (decide (c < length row)%nat) as [_|Hn]; [|lia].
  eexists. split; [reflexivity|]. split.
  - rewrite length_insert. exact HR.
  - intros r' Hr'. destruct (decide (r' = r)) as [->|Hne].
    + exists (<[c:=v]> row). split.
      { apply list_lookup_insert_eq. lia. }
      split; [rewrite length_insert; exact Hlen|].
      intros c' Hc'. destruct (decide (c' = c)) as [->|Hnc].
      * rewrite list_lookup_insert_eq by lia.
        destruct (decide (r = r /\ c = c)) as [_|Hx]; [reflexivity|tauto].
      * rewrite list_lookup_insert_ne by congruence.
        destruct (decide (r = r /\ c' = c)) as [[_ Hx]|_]; [contradiction|].
        apply Hcells. exact Hc'.
    + destruct (H r' Hr') as (row' & Hrow' & Hlen' & Hcells').
      exists row'. split.
      { rewrite list_lookup_insert_ne by congruence. exact Hrow'. }
      split; [exact Hlen'|].
      intros c' Hc'. destruct (decide (r' = r /\ c' = c)) as [[Hx _]|_]; [contradiction|].
      apply Hcells'. exact Hc'.
Qed.

Lemma for_each_append (l : list Z) (row : list N) edit_matrix :
  for_each l (fun _ m => Ret (m ++ [row])) edit_matrix
  = Ret (edit_matrix ++ replicate (length l) row).
Proof.
  revert edit_matrix. induction l as [|i l IH]; intros edit_matrix; simpl.
  - rewrite app_nil_r. reflexivity.
  - change (for_each l (fun _ m => Ret (m ++ [row])) (edit_matrix ++ [row])
            = Ret (edit_matrix ++ row :: replicate (length l) row)).
    rewrite IH, <- app_assoc. reflexivity.
Qed.

Lemma alloc_grid (d : N) (m n : nat) :
  Z.of_nat (S m) < uint_modulus -> Z.of_nat (S n) < uint_modulus ->
  exists edit_matrix,
    alloc_matrix d (Z.of_nat m) (Z.of_nat n) = Ret edit_matrix /\
    Engine.grid_is edit_matrix (S n) (S m) (fun _ _ => d).
Proof.
  intros Hm Hn. unfold alloc_matrix, for_loop.
  rewrite for_each_append, length_seqZ, !uadd_nat_S, !Nat2Z.id by assumption.
  eexists. split; [reflexivity|]. split.
  - simpl. rewrite length_replicate. reflexivity.
  - intros r Hr. exists (replicate (S m) d). split.
    + rewrite app_nil_l. apply lookup_replicate_2. exact Hr.
    + split; [apply length_replicate|].
      intros c Hc. apply lookup_replicate_2. exact Hc.
Qed.

End Grid.

(** ** The fill reaches the specified matrix *)

Section EngineProofs.
Context {N : Type} (e : engine N) (from to : string) (costs : EditCosts).

Local Abbreviation spec := (Engine.spec_cell e from to costs).
Local Abbreviation part := (Engine.partial e from to costs).
Local Abbreviation m := (String.length from).
Local Abbreviation n := (String.length to).

Lemma partial_full (p r c : nat) :
  (c < S m)%nat -> part p (S m) r c = part (S p) O r c.
Proof.
  intros Hc. unfold Engine.partial.
  destruct (Nat.ltb_spec r p), (Nat.eqb_spec r p), (Nat.ltb_spec c (S m)),
    (Nat.ltb_spec r (S p)), (Nat.eqb_spec r (S p)), (Nat.ltb_spec c 0);
    simpl; try reflexivity; lia.
Qed.

Lemma partial_done (r c : nat) : (r <= n)%nat -> part (S n) O r c = spec r c.
Proof.
  intros Hr. unfold Engine.partial.
  destruct (Nat.ltb_spec r (S n)); [reflexivity|lia].
Qed.

Lemma partial_start (r c : nat) : part O 1 r c = default_node e.
Proof.
  unfold Engine.partial.
  destruct (Nat.ltb_spec r 0), (Nat.eqb_spec r 0), (Nat.ltb_spec c 1);
    simpl; try reflexivity; try lia.
  subst. replace c with O by lia. reflexivity.
Qed.

(** Writing the specified node into the next cell of the row. *)
Lemma partial_write R C edit_matrix (p q : nat) (v : N) :
  Engine.grid_is edit_matrix R C (part p q) ->
  (p < R)%nat -> (q < C)%nat -> v = spec p q ->
  exists edit_matrix',
    mset edit_matrix (Z.of_nat p) (Z.of_nat q) v = Ret edit_matrix' /\
    Engine.grid_is edit_matrix' R C (part p (S q)).
Proof.
  intros Hg Hp Hq ->.
  destruct (grid_mset edit_matrix R C _ p q (spec p q) Hg Hp Hq)
    as (mx' & Hset & Hg').
  exists mx'. split; [exact Hset|].
  eapply grid_ext; [exact Hg'|].
  intros r c Hr Hc. simpl. unfold Engine.partial.
  destruct (decide (r = p /\ c = q)) as [[-> ->]|Hne].
  - destruct (Nat.ltb_spec p p), (Nat.eqb_spec p p), (Nat.ltb_spec q (S q));
      simpl; try reflexivity; lia.
  - destruct (Nat.ltb_spec r p), (Nat.eqb_spec r p), (Nat.ltb_spec c q),
      (Nat.ltb_spec c (S q)); simpl; try reflexivity; lia.
Qed.

Lemma partial_read R C edit_matrix (p q r c : nat) :
  Engine.grid_is edit_matrix R C (part p q) ->
  (r < R)%nat -> (c < C)%nat ->
  (r < p \/ (r = p /\ c < q))%nat ->
  mget edit_matrix (Z.of_nat r) (Z.of_nat c) = Ret (spec r c).
Proof.
  intros Hg Hr Hc Hw. rewrite (grid_mget _ _ _ _ r c Hg Hr Hc).
  unfold Engine.partial.
  destruct (Nat.ltb_spec r p), (Nat.eqb_spec r p), (Nat.ltb_spec c q);
    simpl; try reflexivity; lia.
Qed.

Lemma init_first_row_grid edit_matrix (k : nat) :
  fits from -> (k <= m)%nat ->
  Engine.grid_is edit_matrix (S n) (S m) (part O 1) ->
  exists edit_matrix',
    for_loop (Z.of_nat k)
      (fun from_idx edit_matrix =>
         fc ← str_at from from_idx;
         mset edit_matrix 0 (uadd from_idx 1)
           (row0_node e fc (umul (uadd from_idx 1) (cost_at costs DELETE))))
      edit_matrix = Ret edit_matrix' /\
    Engine.grid_is edit_matrix' (S n) (S m) (part O (S k)).
Proof.
  intros Hfit Hk Hg. unfold fits in Hfit.
  apply (for_loop_inv (fun i mx => Engine.grid_is mx (S n) (S m) (part O (S i))));
    [exact Hg|].
  intros i mx Hi Hmx.
  rewrite str_at_char_at by lia. simpl.
  rewrite uadd_nat_S by lia.
  apply (partial_write _ _ mx O (S i)); [exact Hmx|lia|lia|].
  reflexivity.
Qed.

(** One iteration of the inner loop, at [(to_idx, from_idx) = (i, j)]:
    the three reads are in range and return the specified nodes, and the
    write stores the specified node. *)
Lemma fill_cell_grid edit_matrix (i j : nat) :
  fits from -> fits to -> (i < n)%nat -> (j < m)%nat ->
  Engine.grid_is edit_matrix (S n) (S m) (part (S i) (S j)) ->
  exists edit_matrix',
    Engine.fill_cell e from to costs (Z.of_nat i) (Z.of_nat j) edit_matrix
      = Ret edit_matrix' /\
    Engine.grid_is edit_matrix' (S n) (S m) (part (S i) (S (S j))).
Proof.
  intros Hf Ht Hi Hj Hg. unfold fits in Hf, Ht. unfold Engine.fill_cell.
  rewrite !str_at_char_at by lia. simpl.
  rewrite !uadd_usub_cancel by lia.
  rewrite !uadd_nat_S by lia.
  rewrite (partial_read _ _ edit_matrix (S i) (S j) i (S j) Hg) by lia.
  simpl.
  rewrite (partial_read _ _ edit_matrix (S i) (S j) (S i) j Hg) by lia.
  simpl.
  rewrite (partial_read _ _ edit_matrix (S i) (S j) i j Hg) by lia.
  simpl.
  apply (partial_write _ _ edit_matrix (S i) (S j)); [exact Hg|lia|lia|].
  reflexivity.
Qed.

Lemma start_row_grid edit_matrix (i : nat) :
  fits to -> (i < n)%nat ->
  Engine.grid_is edit_matrix (S n) (S m) (part (S i) O) ->
  exists edit_matrix',
    Engine.start_row e to costs (Z.of_nat i) edit_matrix = Ret edit_matrix' /\
    Engine.grid_is edit_matrix' (S n) (S m) (part (S i) 1).
Proof.
  intros Ht Hi Hg. unfold fits in Ht. unfold Engine.start_row.
  rewrite str_at_char_at by lia. simpl.
  rewrite uadd_nat_S by lia.
  apply (partial_write _ _ edit_matrix (S i) O); [exact Hg|lia|lia|].
  reflexivity.
Qed.

Lemma inner_loop_grid edit_matrix (i k : nat) :
  fits from -> fits to -> (i < n)%nat -> (k <= m)%nat ->
  Engine.grid_is edit_matrix (S n) (S m) (part (S i) 1) ->
  exists edit_matrix',
    for_loop (Z.of_nat k) (Engine.fill_cell e from to costs (Z.of_nat i))
      edit_matrix = Ret edit_matrix' /\
    Engine.grid_is edit_matrix' (S n) (S m) (part (S i) (S k)).
Proof.
  intros Hf Ht Hi Hk Hg.
  apply (for_loop_inv (fun j mx => Engine.grid_is mx (S n) (S m) (part (S i) (S j))));
    [exact Hg|].
  intros j mx Hj Hmx. apply fill_cell_grid; try assumption. lia.
Qed.

Lemma fill_row_grid edit_matrix (i : nat) :
  fits from -> fits to -> (i < n)%nat ->
  Engine.grid_is edit_matrix (S n) (S m) (part (S i) O) ->
  exists edit_matrix',
    Engine.fill_row e from to costs (Z.of_nat m) (Z.of_nat i) edit_matrix
      = Ret edit_matrix' /\
    Engine.grid_is edit_matrix' (S n) (S m) (part (S (S i)) O).
Proof.
  intros Hf Ht Hi Hg. unfold Engine.fill_row.
  destruct (start_row_grid edit_matrix i Ht Hi Hg) as (mx1 & -> & Hg1). simpl.
  destruct (inner_loop_grid mx1 i m Hf Ht Hi (le_n _) Hg1) as (mx2 & -> & Hg2).
  exists mx2. split; [reflexivity|].
  eapply grid_ext; [exact Hg2|].
  intros r c _ Hc. apply partial_full. exact Hc.
Qed.

Lemma outer_loop_grid edit_matrix (k : nat) :
  fits from -> fits to -> (k <= n)%nat ->
  Engine.grid_is edit_matrix (S n) (S m) (part 1 O) ->
  exists edit_matrix',
    for_loop (Z.of_nat k) (Engine.fill_row e from to costs (Z.of_nat m))
      edit_matrix = Ret edit_matrix' /\
    Engine.grid_is edit_matrix' (S n) (S m) (part (S k) O).
Proof.
  intros Hf Ht Hk Hg.
  apply (for_loop_inv (fun i mx => Engine.grid_is mx (S n) (S m) (part (S i) O)));
    [exact Hg|].
  intros i mx Hi Hmx. apply fill_row_grid; try assumption. lia.
Qed.

(** The state after the allocation and the first row. *)
Lemma first_row_grid :
  fits from -> fits to ->
  exists mx0 mx1,
    alloc_matrix (default_node e) (Z.of_nat m) (Z.of_nat n) = Ret mx0 /\
    Engine.init_first_row e from costs (Z.of_nat m) mx0 = Ret mx1 /\
    Engine.grid_is mx1 (S n) (S m) (part 1 O).
Proof.
  intros Hf Ht.
  destruct (alloc_grid (default_node e) m n) as (mx0 & Ha & Hg0).
  { unfold fits in Hf. lia. }
  { unfold fits in Ht. lia. }
  assert (Hg0' : Engine.grid_is mx0 (S n) (S m) (part O 1)).
  { eapply grid_ext; [exact Hg0|]. intros r c _ _. simpl.
    symmetry. apply partial_start. }
  destruct (init_first_row_grid mx0 m Hf (le_n _) Hg0') as (mx1 & Hi & Hg1).
  exists mx0, mx1. split; [exact Ha|]. split; [exact Hi|].
  eapply grid_ext; [exact Hg1|]. intros r c _ Hc. apply partial_full. exact Hc.
Qed.

(** The finished matrix is the specified one. *)
Theorem build_matrix_grid :
  fits from -> fits to ->
  exists edit_matrix,
    Engine.build_matrix e from to costs = Ret edit_matrix /\
    Engine.grid_is edit_matrix (S n) (S m) spec.
Proof.
  intros Hf Ht. unfold Engine.build_matrix.
  rewrite !str_length_fits by assumption.
  destruct (first_row_grid Hf Ht) as (mx0 & mx1 & -> & Hi & Hg1). simpl.
  rewrite Hi. simpl.
  destruct (outer_loop_grid mx1 n Hf Ht (le_n _) Hg1) as (mx2 & -> & Hg2).
  exists mx2. split; [reflexivity|].
  eapply grid_ext; [exact Hg2|]. intros r c Hr _. apply partial_done. lia.
Qed.


End EngineProofs.

(** ** The two versions are instances of the engine *)

#[export] Instance min_engine_laws : EngineLaws min_engine.
Proof. split; reflexivity. Qed.

#[export] Instance max_engine_laws : EngineLaws max_engine.
Proof. split; reflexivity. Qed.

Lemma min_fill_cell from to costs to_idx from_idx mx :
  MinEdit.fill_cell from to costs to_idx from_idx mx
  = Engine.fill_cell min_engine from to costs to_idx from_idx mx.
Proof. reflexivity. Qed.

Lemma min_fill_row from to costs from_length to_idx mx :
  MinEdit.fill_row from to costs from_length to_idx mx
  = Engine.fill_row min_engine from to costs from_length to_idx mx.
Proof.
  unfold MinEdit.fill_row, Engine.fill_row, Engine.start_row.
  destruct (str_at to to_idx); reflexivity.
Qed.

Lemma min_build_matrix from to costs :
  MinEdit.build_matrix from to costs = Engine.build_matrix min_engine from to costs.
Proof.
  unfold MinEdit.build_matrix, Engine.build_matrix.
  destruct (alloc_matrix _ _ _) as [mx0| |]; try reflexivity. simpl.
  change (MinEdit.init_first_row from costs (str_length from) mx0)
    with (Engine.init_first_row min_engine from costs (str_length from) mx0).
  destruct (Engine.init_first_row _ _ _ _ _) as [mx1| |]; try reflexivity. simpl.
  apply for_loop_ext. intros i s _. apply min_fill_row.
Qed.


Lemma str_at_below s i :
  0 <= i < str_length s -> str_at s i = Ret (Engine.char_at s (Z.to_nat i)).
Proof.
  intros H. rewrite <- (Z2Nat.id i) at 1 by lia. apply str_at_char_at.
  unfold str_length, uwrap in H.
  assert (Z.of_nat (String.length s) mod uint_modulus <= Z.of_nat (String.length s)).
  { apply Z.mod_le; [lia|reflexivity]. }
  lia.
Qed.

Lemma max_init_first_row from costs mx :
  MaxEdit.init_first_row costs (str_length from) mx
  = Engine.init_first_row max_engine from costs (str_length from) mx.
Proof.
  unfold MaxEdit.init_first_row, Engine.init_first_row.
  apply for_loop_ext. intros i s Hi. rewrite str_at_below by exact Hi. reflexivity.
Qed.

Lemma max_fill_cell from to costs to_idx from_idx mx :
  MaxEdit.fill_cell from to costs to_idx from_idx mx
  = Engine.fill_cell max_engine from to costs to_idx from_idx mx.
Proof. reflexivity. Qed.

Lemma max_fill_row from to costs from_length to_idx mx :
  MaxEdit.fill_row from to costs from_length to_idx mx
  = Engine.fill_row max_engine from to costs from_length to_idx mx.
Proof.
  unfold MaxEdit.fill_row, Engine.fill_row, Engine.start_row.
  destruct (str_at to to_idx); reflexivity.
Qed.

Lemma max_build_matrix from to costs :
  MaxEdit.build_matrix from to costs = Engine.build_matrix max_engine from to costs.
Proof.
  unfold MaxEdit.build_matrix, Engine.build_matrix.
  destruct (alloc_matrix _ _ _) as [mx0| |]; try reflexivity. simpl.
  rewrite max_init_first_row.
  destruct (Engine.init_first_row _ _ _ _ _) as [mx1| |]; try reflexivity. simpl.
  apply for_loop_ext. intros i s _. apply max_fill_row.
Qed.


(** ** Shape of the specified matrix *)

Lemma umul_succ (j : nat) d :
  umul (Z.of_nat (S j)) d = uadd (umul (Z.of_nat j) d) d.
Proof.
  unfold umul. rewrite uadd_uwrap_l. unfold uadd. f_equal. lia.
Qed.

Lemma choose_edit_cases (better : Z -> Z -> bool) ins del rep rt :
  Engine.choose_edit better ins del rep rt = (ins, INSERT) \/
  Engine.choose_edit better ins del rep rt = (del, DELETE) \/
  Engine.choose_edit better ins del rep rt = (rep, rt).
Proof.
  unfold Engine.choose_edit.
  destruct (better ins del && better ins rep); [auto|].
  destruct (better del rep); auto.
Qed.

Section SpecShape.
Context {N : Type} (e : engine N) `{!EngineLaws e}.
Context (from to : string) (costs : EditCosts).

Local Abbreviation spec := (Engine.spec_cell e from to costs).

Lemma spec_origin : spec O O = default_node e.
Proof. reflexivity. Qed.

Lemma spec_row0 (j : nat) :
  spec O (S j)
  = row0_node e (Engine.char_at from j) (umul (Z.of_nat (S j)) (cost_at costs DELETE)).
Proof. reflexivity. Qed.

Lemma spec_col0 (i : nat) :
  spec (S i) O
  = col0_node e (Engine.char_at to i) (umul (Z.of_nat (S i)) (cost_at costs INSERT)).
Proof. reflexivity. Qed.

(** The recurrence. *)
Lemma spec_inner (i j : nat) :
  spec (S i) (S j)
  = let fc := Engine.char_at from j in
    let tc := Engine.char_at to i in
    let rep_type := if Ascii.eqb fc tc then SKIP else REPLACE in
    let ins_cost := uadd (node_cost e (spec i (S j))) (cost_at costs INSERT) in
    let del_cost := uadd (node_cost e (spec (S i) j)) (cost_at costs DELETE) in
    let rep_cost := uadd (node_cost e (spec i j)) (cost_at costs rep_type) in
    let chosen := Engine.choose_edit (better e) ins_cost del_cost rep_cost rep_type in
    cell_node e (snd chosen) fc tc (fst chosen).
Proof. reflexivity. Qed.

Lemma spec_row0_cost (j : nat) :
  node_cost e (spec O j) = umul (Z.of_nat j) (cost_at costs DELETE).
Proof.
  destruct j as [|j].
  - rewrite spec_origin, default_cost. reflexivity.
  - rewrite spec_row0, row0_cost. reflexivity.
Qed.

Lemma spec_col0_cost (i : nat) :
  node_cost e (spec i O) = umul (Z.of_nat i) (cost_at costs INSERT).
Proof.
  destruct i as [|i].
  - rewrite spec_origin, default_cost. reflexivity.
  - rewrite spec_col0, col0_cost. reflexivity.
Qed.

(** Every cell but the origin names the cell it was reached from: the type
    stored in the cell tells which coordinates go down by one, and the
    cost of the cell is the cost there plus the configured cost of the
    type. *)
Lemma spec_step (i j : nat) :
  (i <> O \/ j <> O) ->
  exists i' j',
    (if decide (node_type e (spec i j) <> DELETE) then i = S i' else i = i') /\
    (if decide (node_type e (spec i j) <> INSERT) then j = S j' else j = j') /\
    node_cost e (spec i j)
    = uadd (node_cost e (spec i' j')) (cost_at costs (node_type e (spec i j))).
Proof.
  intros Hne. destruct i as [|i], j as [|j].
  - exfalso. destruct Hne as [H|H]; apply H; reflexivity.
  - exists O, j. rewrite spec_row0, row0_type, row0_cost, spec_row0_cost.
    simpl. split; [reflexivity|]. split; [reflexivity|]. apply umul_succ.
  - exists i, O. rewrite spec_col0, col0_type, col0_cost, spec_col0_cost.
    simpl. split; [reflexivity|]. split; [reflexivity|]. apply umul_succ.
  - rewrite spec_inner. cbv zeta. rewrite cell_type, cell_cost.
    set (fc := Engine.char_at from j). set (tc := Engine.char_at to i).
    set (rt := if Ascii.eqb fc tc then SKIP else REPLACE).
    assert (Hrt : rt = SKIP \/ rt = REPLACE).
    { unfold rt. destruct (Ascii.eqb fc tc); auto. }
    destruct (choose_edit_cases (better e)
                (uadd (node_cost e (spec i (S j))) (cost_at costs INSERT))
                (uadd (node_cost e (spec (S i) j)) (cost_at costs DELETE))
                (uadd (node_cost e (spec i j)) (cost_at costs rt)) rt)
      as [-> | [-> | ->]]; simpl.
    + exists i, (S j). auto.
    + exists (S i), j. auto.
    + exists i, j. destruct Hrt as [-> | ->]; simpl; auto.
Qed.

End SpecShape.

(** ** The replay loop of the first version *)

Section MinReplay.
Context (from to : string) (costs : EditCosts).

Local Abbreviation spec := (Engine.spec_cell min_engine from to costs).
Local Abbreviation m := (String.length from).
Local Abbreviation n := (String.length to).

Lemma total_cost_range l : 0 <= MinEdit.total_cost costs l < uint_modulus.
Proof.
  destruct l as [|e l]; simpl.
  - unfold uint_modulus. lia.
  - apply uadd_range.
Qed.

Lemma total_cost_app l1 l2 :
  MinEdit.total_cost costs (l1 ++ l2)
  = uadd (MinEdit.total_cost costs l1) (MinEdit.total_cost costs l2).
Proof.
  induction l1 as [|e l1 IH].
  - rewrite app_nil_l. change (MinEdit.total_cost costs []) with 0.
    unfold uadd. rewrite Z.add_0_l. symmetry.
    apply uwrap_small, total_cost_range.
  - change (uadd (cost_at costs (MinEdit.type e)) (MinEdit.total_cost costs (l1 ++ l2))
            = uadd (uadd (cost_at costs (MinEdit.type e)) (MinEdit.total_cost costs l1))
                (MinEdit.total_cost costs l2)).
    rewrite IH. unfold uadd, uwrap.
    rewrite Zplus_mod_idemp_r, Zplus_mod_idemp_l. f_equal. lia.
Qed.

Lemma total_cost_snoc l e :
  MinEdit.total_cost costs (l ++ [e])
  = uadd (MinEdit.total_cost costs l) (cost_at costs (MinEdit.type e)).
Proof.
  rewrite total_cost_app. simpl. unfold uadd at 2. rewrite Z.add_0_r.
  apply uadd_uwrap_r.
Qed.

Lemma total_cost_exact l :
  MinEdit.total_cost costs l = uwrap (MinEdit.exact_cost costs l).
Proof.
  induction l as [|e l IH]; simpl.
  - reflexivity.
  - fold (MinEdit.total_cost costs l). fold (MinEdit.exact_cost costs l).
    rewrite IH. apply uadd_uwrap_r.
Qed.

Lemma count_not_snoc t l e :
  MinEdit.count_not t (l ++ [e])
  = (MinEdit.count_not t l + (if decide (MinEdit.type e <> t) then 1 else 0))%nat.
Proof.
  unfold MinEdit.count_not. rewrite filter_app, length_app. f_equal.
  rewrite filter_cons, filter_nil.
  destruct (decide (MinEdit.type e <> t)); reflexivity.
Qed.

(** From any cell of the finished matrix, with fuel for the way back to
    the origin, the loop ends; what it adds in front of [acc] has as many
    non-INSERT edits as the column, as many non-DELETE edits as the row,
    and costs what the cell holds. *)
Lemma replay_from_cell edit_matrix (fuel i j : nat) (acc : list MinEdit.Edit) :
  fits from -> fits to ->
  Engine.grid_is edit_matrix (S n) (S m) spec ->
  (i <= n)%nat -> (j <= m)%nat -> (i + j <= fuel)%nat ->
  exists l,
    MinEdit.replay fuel edit_matrix (Z.of_nat j) (Z.of_nat i) acc = Ret (l ++ acc) /\
    MinEdit.count_not INSERT l = j /\
    MinEdit.count_not DELETE l = i /\
    MinEdit.total_cost costs l = MinEdit.cost (spec i j).
Proof.
  intros Hf Ht Hg. unfold fits in Hf, Ht.
  revert i j acc. induction fuel as [|fuel IH]; intros i j acc Hi Hj Hfuel.
  - assert (i = O) by lia. assert (j = O) by lia. subst.
    exists []. simpl. auto.
  - destruct (decide (i = O /\ j = O)) as [[-> ->]|Hne].
    { exists []. simpl. auto. }
    cbn [MinEdit.replay].
    replace ((0 <? Z.of_nat j) || (0 <? Z.of_nat i)) with true.
    2:{ symmetry. apply orb_true_iff.
        destruct (Z.ltb_spec 0 (Z.of_nat j)), (Z.ltb_spec 0 (Z.of_nat i));
          auto. exfalso. apply Hne. lia. }
    rewrite (grid_mget _ _ _ _ i j Hg) by lia. simpl.
    destruct (spec_step min_engine from to costs i j) as (i' & j' & Hi' & Hj' & Hc).
    { destruct i; [|left; discriminate]. destruct j; [|right; discriminate].
      exfalso. apply Hne. auto. }
    change (node_type min_engine (spec i j)) with (MinEdit.type (MinEdit.edit (spec i j))) in *.
    change (node_cost min_engine) with MinEdit.cost in Hc.
    set (ed := MinEdit.edit (spec i j)) in *.
    assert (Hfrom : (if decide (MinEdit.type ed <> INSERT)
                     then usub (Z.of_nat j) 1 else Z.of_nat j) = Z.of_nat j').
    { destruct (decide (MinEdit.type ed <> INSERT)); subst j.
      - apply usub_nat_S. lia.
      - reflexivity. }
    assert (Hto : (if decide (MinEdit.type ed <> DELETE)
                   then usub (Z.of_nat i) 1 else Z.of_nat i) = Z.of_nat i').
    { destruct (decide (MinEdit.type ed <> DELETE)); subst i.
      - apply usub_nat_S. lia.
      - reflexivity. }
    rewrite Hfrom, Hto.
    assert (Hdec : (i' <= n /\ j' <= m /\ i' + j' <= fuel)%nat).
    { destruct (decide (MinEdit.type ed <> INSERT)) as [Hx|Hx],
        (decide (MinEdit.type ed <> DELETE)) as [Hy|Hy]; subst; try lia.
      exfalso. apply dec_stable in Hx. apply dec_stable in Hy. congruence. }
    destruct (IH i' j' (ed :: acc)) as (l & Hrun & Hci & Hcd & Hcost); try lia.
    exists (l ++ [ed]). split.
    { rewrite Hrun, <- app_assoc. reflexivity. }
    rewrite !count_not_snoc, total_cost_snoc, Hci, Hcd, Hcost.
    split; [|split].
    + destruct (decide (MinEdit.type ed <> INSERT)); lia.
    + destruct (decide (MinEdit.type ed <> DELETE)); lia.
    + symmetry. exact Hc.
Qed.

(** Every cell the loop reads lies in the grid. *)
Lemma replay_reads_in_grid edit_matrix (fuel i j : nat) :
  fits from -> fits to ->
  Engine.grid_is edit_matrix (S n) (S m) spec ->
  (i <= n)%nat -> (j <= m)%nat ->
  Forall (fun rc => 0 <= fst rc <= Z.of_nat n /\ 0 <= snd rc <= Z.of_nat m)
    (MinEdit.replay_reads fuel edit_matrix (Z.of_nat j) (Z.of_nat i)).
Proof.
  intros Hf Ht Hg. unfold fits in Hf, Ht.
  revert i j. induction fuel as [|fuel IH]; intros i j Hi Hj.
  - simpl. destruct ((0 <? Z.of_nat j) || (0 <? Z.of_nat i)); constructor.
  - cbn [MinEdit.replay_reads].
    destruct ((0 <? Z.of_nat j) || (0 <? Z.of_nat i)) eqn:Hcond; [|constructor].
    constructor; [simpl; lia|].
    rewrite (grid_mget _ _ _ _ i j Hg) by lia. cbv zeta.
    destruct (spec_step min_engine from to costs i j) as (i' & j' & Hi' & Hj' & _).
    { apply orb_true_iff in Hcond.
      destruct Hcond as [H|H]; apply Z.ltb_lt in H; lia. }
    change (node_type min_engine (spec i j)) with (MinEdit.type (MinEdit.edit (spec i j))) in *.
    set (ed := MinEdit.edit (spec i j)) in *.
    destruct (decide (MinEdit.type ed <> INSERT)), (decide (MinEdit.type ed <> DELETE));
      subst; rewrite ?usub_nat_S by lia; apply IH; lia.
Qed.

End MinReplay.

(** ** The first version as a whole *)

Lemma min_build_grid from to costs :
  fits from -> fits to ->
  exists edit_matrix,
    MinEdit.build_matrix from to costs = Ret edit_matrix /\
    Engine.grid_is edit_matrix (S (String.length to)) (S (String.length from))
      (Engine.spec_cell min_engine from to costs).
Proof.
  intros Hf Ht. rewrite min_build_matrix. apply build_matrix_grid; assumption.
Qed.

Lemma max_build_grid from to costs :
  fits from -> fits to ->
  exists edit_matrix,
    MaxEdit.build_matrix from to costs = Ret edit_matrix /\
    Engine.grid_is edit_matrix (S (String.length to)) (S (String.length from))
      (Engine.spec_cell max_engine from to costs).
Proof.
  intros Hf Ht. rewrite max_build_matrix. apply build_matrix_grid; assumption.
Qed.

(** With fuel for [length from + length to] iterations the first version
    returns; the edits it returns conserve the two lengths and cost what
    the terminal cell holds. *)
Lemma min_compute_spec from to costs (fuel : nat) :
  fits from -> fits to ->
  (String.length from + String.length to <= fuel)%nat ->
  exists edit_matrix edits,
    MinEdit.build_matrix from to costs = Ret edit_matrix /\
    Engine.grid_is edit_matrix (S (String.length to)) (S (String.length from))
      (Engine.spec_cell min_engine from to costs) /\
    MinEdit.compute_optimal_edits fuel from to costs = Ret edits /\
    MinEdit.count_not INSERT edits = String.length from /\
    MinEdit.count_not DELETE edits = String.length to /\
    MinEdit.total_cost costs edits
    = MinEdit.cost (Engine.spec_cell min_engine from to costs
                      (String.length to) (String.length from)).
Proof.
  intros Hf Ht Hfuel.
  destruct (min_build_grid from to costs Hf Ht) as (mx & Hb & Hg).
  destruct (replay_from_cell from to costs mx fuel (String.length to)
              (String.length from) [] Hf Ht Hg) as (l & Hrun & Hci & Hcd & Hcost);
    try lia.
  exists mx, l. unfold MinEdit.compute_optimal_edits.
  rewrite Hb. simpl. rewrite !str_length_fits by assumption.
  rewrite app_nil_r in Hrun. auto 10.
Qed.

(** The replay loop of the first version stays in the grid. *)
Lemma min_replay_in_grid from to costs (fuel : nat) :
  fits from -> fits to ->
  exists edit_matrix,
    MinEdit.build_matrix from to costs = Ret edit_matrix /\
    Forall (fun rc => 0 <= fst rc <= Z.of_nat (String.length to) /\
                      0 <= snd rc <= Z.of_nat (String.length from))
      (MinEdit.replay_reads fuel edit_matrix (str_length from) (str_length to)).
Proof.
  intros Hf Ht.
  destruct (min_build_grid from to costs Hf Ht) as (mx & Hb & Hg).
  exists mx. split; [exact Hb|].
  rewrite !str_length_fits by assumption.
  apply (replay_reads_in_grid from to costs); auto.
Qed.

(** ** Runs of the replay loop as a relation *)

Lemma replay_run_deterministic mx from_idx to_idx result l1 l2 :
  MinEdit.replay_run mx from_idx to_idx result l1 ->
  MinEdit.replay_run mx from_idx to_idx result l2 ->
  l1 = l2.
Proof.
  intros H1. revert l2.
  induction H1 as [fi ti res Hc | fi ti res node final Hc Hget Hrun IH];
    intros l2 H2.
  - inversion H2; subst; [reflexivity|congruence].
  - inversion H2 as [? ? ? Hc2 | ? ? ? node2 ? Hc2 Hget2 Hrun2]; subst.
    + congruence.
    + rewrite Hget in Hget2. injection Hget2 as <-. apply IH. exact Hrun2.
Qed.

Lemma replay_sound mx (fuel : nat) from_idx to_idx result l :
  MinEdit.replay fuel mx from_idx to_idx result = Ret l ->
  MinEdit.replay_run mx from_idx to_idx result l.
Proof.
  revert from_idx to_idx result.
  induction fuel as [|fuel IH]; intros fi ti res H; cbn [MinEdit.replay] in H.
  - destruct ((0 <? fi) || (0 <? ti)) eqn:Hc; [discriminate|].
    injection H as <-. apply MinEdit.replay_exit. exact Hc.
  - destruct ((0 <? fi) || (0 <? ti)) eqn:Hc.
    + destruct (mget mx ti fi) as [node| |] eqn:Hget; simpl in H; try discriminate.
      eapply MinEdit.replay_iter; [exact Hc|exact Hget|]. apply IH. exact H.
    + injection H as <-. apply MinEdit.replay_exit. exact Hc.
Qed.

Lemma compute_returns (fuel : nat) from to costs edits :
  MinEdit.compute_optimal_edits fuel from to costs = Ret edits ->
  MinEdit.returns from to costs edits.
Proof.
  unfold MinEdit.compute_optimal_edits, MinEdit.returns. intros H.
  destruct (MinEdit.build_matrix from to costs) as [mx| |]; simpl in H;
    try discriminate.
  exists mx. split; [reflexivity|]. eapply replay_sound. exact H.
Qed.

Lemma replay_complete mx from_idx to_idx result l :
  MinEdit.replay_run mx from_idx to_idx result l ->
  exists fuel : nat, MinEdit.replay fuel mx from_idx to_idx result = Ret l.
Proof.
  induction 1 as [fi ti res Hc | fi ti res node final Hc Hget Hrun [fuel IH]].
  - exists O. simpl. rewrite Hc. reflexivity.
  - exists (S fuel). cbn [MinEdit.replay]. rewrite Hc, Hget, bind_Ret. exact IH.
Qed.

(** The relation and the function on fuel describe the same runs. *)
Lemma returns_compute from to costs edits :
  MinEdit.returns from to costs edits ->
  exists fuel : nat, MinEdit.compute_optimal_edits fuel from to costs = Ret edits.
Proof.
  intros (mx & Hb & Hrun). destruct (replay_complete _ _ _ _ _ Hrun) as [fuel Hf].
  exists fuel. unfold MinEdit.compute_optimal_edits. rewrite Hb, bind_Ret. exact Hf.
Qed.

(** ** The replay loop of the second version *)

(** Whenever one of the strings is not empty, the first read of the replay
    loop of the second version is one row below the matrix. *)
Lemma max_replay_undef from to costs (fuel : nat) :
  fits from -> fits to ->
  (0 < String.length from + String.length to)%nat ->
  MaxEdit.compute_optimal_edits (S fuel) from to costs = Undef.
Proof.
  intros Hf Ht Hpos.
  destruct (max_build_grid from to costs Hf Ht) as (mx & Hb & Hg).
  unfold MaxEdit.compute_optimal_edits. rewrite Hb. simpl.
  rewrite !str_length_fits by assumption.
  replace ((0 <? Z.of_nat (String.length from)) || (0 <? Z.of_nat (String.length to)))
    with true.
  2:{ symmetry. apply orb_true_iff.
      destruct (Z.ltb_spec 0 (Z.of_nat (String.length from))); [auto|].
      right. apply Z.ltb_lt. lia. }
  unfold fits in Ht. rewrite (uadd_nat_S (String.length to)) by lia.
  rewrite (grid_mget_row_out _ _ _ _ (S (String.length to)) _ Hg) by lia.
  reflexivity.
Qed.

(** ** The reads of the recurrence *)

Lemma grid_dims {N} (edit_matrix : matrix N) R C g :
  Engine.grid_is edit_matrix R C g ->
  length edit_matrix = R /\ Forall (fun row => length row = C) edit_matrix.
Proof.
  intros [HR H]. split; [exact HR|].
  apply Forall_lookup. intros r row Hrow.
  assert (Hr : (r < R)%nat).
  { rewrite <- HR. eapply lookup_lt_Some. exact Hrow. }
  destruct (H r Hr) as (row' & Hrow' & Hlen & _). congruence.
Qed.


(** ** Costs that do not wrap *)

Lemma choose_edit_min ins del rep rt :
  fst (Engine.choose_edit Z.ltb ins del rep rt) = Z.min ins (Z.min del rep).
Proof.
  unfold Engine.choose_edit.
  destruct (Z.ltb_spec ins del), (Z.ltb_spec ins rep), (Z.ltb_spec del rep);
    simpl; lia.
Qed.

Lemma choose_edit_max ins del rep rt :
  fst (Engine.choose_edit Z.gtb ins del rep rt) = Z.max ins (Z.max del rep).
Proof.
  unfold Engine.choose_edit. rewrite !Z.gtb_ltb.
  destruct (Z.ltb_spec del ins), (Z.ltb_spec rep ins), (Z.ltb_spec rep del);
    simpl; lia.
Qed.

Section NoWrap.
Context {N : Type} (e : engine N) `{!EngineLaws e}.
Context (from to : string).

Local Abbreviation m := (String.length from).
Local Abbreviation n := (String.length to).

Lemma spec_cost_bound costs C (i j : nat) :
  no_wrap from to costs C -> (i <= n)%nat -> (j <= m)%nat ->
  0 <= node_cost e (Engine.spec_cell e from to costs i j) <= Z.of_nat (i + j) * C.
Proof.
  intros [Hc Hw].
  assert (HC : 0 <= C) by (specialize (Hc SKIP); lia).
  remember (i + j)%nat as k eqn:Hk. revert i j Hk.
  induction k as [k IH] using lt_wf_ind. intros i j Hk Hi Hj.
  destruct (decide (i = O /\ j = O)) as [[-> ->]|Hne].
  { rewrite spec_origin, default_cost. subst k. simpl. lia. }
  destruct (spec_step e from to costs i j) as (i' & j' & Hi' & Hj' & Hcost).
  { destruct i; [|left; discriminate]. destruct j; [|right; discriminate].
    exfalso. apply Hne. auto. }
  set (t := node_type e (Engine.spec_cell e from to costs i j)) in *.
  assert (Hlt : (i' <= i /\ j' <= j /\ S (i' + j') <= i + j)%nat).
  { destruct (decide (t <> DELETE)) as [Hx|Hx], (decide (t <> INSERT)) as [Hy|Hy];
      subst; try lia.
    exfalso. apply dec_stable in Hx. apply dec_stable in Hy. congruence. }
  specialize (IH (i' + j')%nat ltac:(lia) i' j' eq_refl ltac:(lia) ltac:(lia)).
  specialize (Hc t).
  rewrite Hcost, uadd_small; nia.
Qed.

(** Without wrap a larger cost model gives larger cell costs, whenever
    the chosen cost is monotone in the three candidate costs. *)
Lemma spec_cost_mono costs1 costs2 C (i j : nat) :
  (forall a b c a' b' c' rt,
      a <= a' -> b <= b' -> c <= c' ->
      fst (Engine.choose_edit (better e) a b c rt)
      <= fst (Engine.choose_edit (better e) a' b' c' rt)) ->
  no_wrap from to costs1 C -> no_wrap from to costs2 C ->
  (forall t, cost_at costs1 t <= cost_at costs2 t) ->
  (i <= n)%nat -> (j <= m)%nat ->
  node_cost e (Engine.spec_cell e from to costs1 i j)
  <= node_cost e (Engine.spec_cell e from to costs2 i j).
Proof.
  intros Hmono Hw1 Hw2 Hle.
  assert (Hb1 := spec_cost_bound costs1 C).
  assert (Hb2 := spec_cost_bound costs2 C).
  destruct Hw1 as [Hc1 Hw]. destruct Hw2 as [Hc2 _].
  assert (HC : 0 <= C) by (specialize (Hc1 SKIP); lia).
  assert (Hadd : forall costs (i j : nat) t,
             (forall t, 0 <= cost_at costs t <= C) ->
             (0 <= node_cost e (Engine.spec_cell e from to costs i j)
              <= Z.of_nat (i + j) * C) ->
             (S (i + j) <= n + m)%nat ->
             uadd (node_cost e (Engine.spec_cell e from to costs i j)) (cost_at costs t)
             = node_cost e (Engine.spec_cell e from to costs i j) + cost_at costs t).
  { intros costs i0 j0 t Hc Hb Hs. specialize (Hc t). apply uadd_small. nia. }
  revert j. induction i as [|i IHi]; intros j Hi Hj.
  - rewrite !spec_row0_cost by assumption.
    unfold umul. rewrite !uwrap_small.
    + specialize (Hle DELETE). nia.
    + specialize (Hc2 DELETE). nia.
    + specialize (Hc1 DELETE). nia.
  - induction j as [|j IHj].
    + rewrite !spec_col0_cost by assumption.
      unfold umul. rewrite !uwrap_small.
      * specialize (Hle INSERT). nia.
      * specialize (Hc2 INSERT). nia.
      * specialize (Hc1 INSERT). nia.
    + rewrite !spec_inner. cbv zeta. rewrite !cell_cost.
      set (rt := if Ascii.eqb (Engine.char_at from j) (Engine.char_at to i)
                 then SKIP else REPLACE).
      rewrite !Hadd; try assumption; try lia;
        try (apply Hb1; [split; assumption|lia|lia]);
        try (apply Hb2; [split; assumption|lia|lia]).
      apply Hmono.
      * specialize (IHi (S j) ltac:(lia) ltac:(lia)). specialize (Hle INSERT). lia.
      * specialize (IHj ltac:(lia)). specialize (Hle DELETE). lia.
      * specialize (IHi j ltac:(lia) ltac:(lia)). specialize (Hle rt). lia.
Qed.

End NoWrap.

(* ===================================================================== *)
(** * Part III: the properties of the specification *)
(* ===================================================================== *)

(** C1 (defect of the second version).  The claim holds for the first
    version ([min_compute_spec], [min_replay_in_grid]).  In the second
    version the replay loop reads [edit_matrix[to_idx + 1][from_idx + 1]]:
    for the strings "a" and "a" the matrix has rows 0 and 1, the loop
    starts at the cursor [(1, 1)] and its first read is the cell [(2, 2)],
    outside the matrix. *)
Theorem C1_max_replay_reads_outside_matrix :
  exists edit_matrix,
    MaxEdit.build_matrix "a" "a" MaxEdit.std_edit_costs = Ret edit_matrix /\
    length edit_matrix = 2%nat /\
    Forall (fun row => length row = 2%nat) edit_matrix /\
    (forall fuel, MaxEdit.replay_reads (S fuel) edit_matrix 1 1 = [(2, 2)]) /\
    mget edit_matrix 2 2 = Undef /\
    (forall fuel,
        MaxEdit.compute_optimal_edits (S fuel) "a" "a" MaxEdit.std_edit_costs = Undef).
Proof.
  eexists. split; [vm_compute; reflexivity|].
  split; [reflexivity|].
  split; [repeat constructor|].
  split; [intros fuel; reflexivity|].
  split; [reflexivity|].
  intros fuel. reflexivity.
Qed.

(** C4 (defect of the second version, the one of C1).  The first version
    conserves the lengths ([min_compute_spec]).  The second version returns
    no alignment for "ab" and "a": whatever the fuel, the first read
    of its replay loop is out of range. *)
Theorem C4_max_returns_no_alignment :
  MaxEdit.compute_optimal_edits 0 "ab" "a" MaxEdit.std_edit_costs = Timeout /\
  (forall fuel,
      MaxEdit.compute_optimal_edits (S fuel) "ab" "a" MaxEdit.std_edit_costs = Undef) /\
  (exists edits,
      MinEdit.compute_optimal_edits 3 "ab" "a" MinEdit.std_edit_costs = Ret edits /\
      MinEdit.count_not INSERT edits = 2%nat /\
      MinEdit.count_not DELETE edits = 1%nat).
Proof.
  split; [reflexivity|].
  split; [intros fuel; reflexivity|].
  eexists. split; [vm_compute; reflexivity|]. split; reflexivity.
Qed.

(** C5, the claim as stated fails.  With the three candidates at the same
    cost the recurrence stores the replace/skip candidate, not INSERT; with
    INSERT and DELETE at the same cost below the third it stores DELETE.
    The cell [(1, 1)] for the strings "a" and "a" under the costs
    [{2, 1, 1, 5}] has the three candidates at cost 2 and holds SKIP. *)
Lemma C5_counterexample :
  MinEdit.choose_edit 2 2 2 SKIP = (2, SKIP) /\
  MinEdit.choose_edit 2 2 3 SKIP = (2, DELETE) /\
  MinEdit.choose_edit 2 3 2 REPLACE = (2, REPLACE) /\
  MaxEdit.choose_edit 2 2 2 SKIP = (2, SKIP) /\
  MaxEdit.choose_edit 2 2 1 SKIP = (2, DELETE) /\
  (exists edit_matrix,
      MinEdit.build_matrix "a" "a" (mkEditCosts 2 1 1 5) = Ret edit_matrix /\
      mget edit_matrix 0 1 = Ret (MinEdit.EditNode_new DELETE "a" zero 1) /\
      mget edit_matrix 1 0 = Ret (MinEdit.EditNode_new INSERT zero "a" 1) /\
      mget edit_matrix 0 0 = Ret (MinEdit.EditNode_new SKIP zero zero 0) /\
      mget edit_matrix 1 1 = Ret (MinEdit.EditNode_new SKIP "a" "a" 2)).
Proof.
  repeat (split; [reflexivity|]).
  eexists. split; [vm_compute; reflexivity|].
  repeat split; reflexivity.
Qed.

(** C5, amended.  The choice among the candidates is, in the first
    version: INSERT when its cost is below both others; else DELETE when
    its cost is below the replace/skip cost; else the replace/skip
    candidate.  So among equal costs the preference is replace/skip over
    DELETE over INSERT.  The second version is the same with the opposite
    inequality. *)
Theorem C5_tie_break ins_cost del_cost rep_cost rep_type :
  (MinEdit.choose_edit ins_cost del_cost rep_cost rep_type = (ins_cost, INSERT) /\
     ins_cost < del_cost /\ ins_cost < rep_cost
   \/ MinEdit.choose_edit ins_cost del_cost rep_cost rep_type = (del_cost, DELETE) /\
     del_cost <= ins_cost /\ del_cost < rep_cost
   \/ MinEdit.choose_edit ins_cost del_cost rep_cost rep_type = (rep_cost, rep_type) /\
     rep_cost <= ins_cost /\ rep_cost <= del_cost) /\
  (MaxEdit.choose_edit ins_cost del_cost rep_cost rep_type = (ins_cost, INSERT) /\
     ins_cost > del_cost /\ ins_cost > rep_cost
   \/ MaxEdit.choose_edit ins_cost del_cost rep_cost rep_type = (del_cost, DELETE) /\
     del_cost >= ins_cost /\ del_cost > rep_cost
   \/ MaxEdit.choose_edit ins_cost del_cost rep_cost rep_type = (rep_cost, rep_type) /\
     rep_cost >= ins_cost /\ rep_cost >= del_cost).
Proof.
  unfold MinEdit.choose_edit, MaxEdit.choose_edit. split.
  - destruct (Z.ltb_spec ins_cost del_cost), (Z.ltb_spec ins_cost rep_cost),
      (Z.ltb_spec del_cost rep_cost); simpl;
      first [ left; split; [reflexivity|lia]
            | right; left; split; [reflexivity|lia]
            | right; right; split; [reflexivity|lia] ].
  - rewrite !Z.gtb_ltb.
    destruct (Z.ltb_spec del_cost ins_cost), (Z.ltb_spec rep_cost ins_cost),
      (Z.ltb_spec rep_cost del_cost); simpl;
      first [ left; split; [reflexivity|lia]
            | right; left; split; [reflexivity|lia]
            | right; right; split; [reflexivity|lia] ].
Qed.

(** C6, the claim as stated fails in the second version: its [Edit] has one
    symbol [ch], and the DELETE it stores in row 0 carries the character 0,
    not [from[j - 1]]. *)
Lemma C6_counterexample :
  MaxEdit.build_matrix "a" EmptyString MaxEdit.std_edit_costs
  = Ret [[MaxEdit.EditNode_new SKIP zero 0; MaxEdit.EditNode_new DELETE zero 10]] /\
  MaxEdit.EditNode_new DELETE zero 10 <> MaxEdit.EditNode_new DELETE "a" 10.
Proof.
  split; [vm_compute; reflexivity|discriminate].
Qed.

Lemma string_get_char_at s (i : nat) c :
  String.get i s = Some c -> Engine.char_at s i = c.
Proof. unfold Engine.char_at. intros ->. reflexivity. Qed.

Lemma string_get_lt s (i : nat) c : String.get i s = Some c -> (i < String.length s)%nat.
Proof.
  revert i. induction s as [|a s IH]; intros i H; simpl in *.
  - discriminate.
  - destruct i as [|i]; [lia|]. apply IH in H. lia.
Qed.

(** C6, amended.  After the matrix is built, in both versions: the cell
    [(0, 0)] holds cost 0 and SKIP; the cell [(0, j)], for [j] from 1 to
    the length of [from], holds DELETE and the cost [j * costs[DELETE]] (in
    [unsigned]); the cell [(i, 0)], for [i] from 1 to the length of [to],
    holds INSERT carrying [to[i - 1]] and the cost [i * costs[INSERT]].
    The DELETE of the first version carries [from[j - 1]]; the DELETE of
    the second version carries the character 0. *)
Theorem C6_initial_cells from to costs :
  fits from -> fits to ->
  (exists edit_matrix,
      MinEdit.build_matrix from to costs = Ret edit_matrix /\
      mget edit_matrix 0 0 = Ret (MinEdit.EditNode_new SKIP zero zero 0) /\
      (forall (j : nat) c, String.get j from = Some c ->
         mget edit_matrix 0 (Z.of_nat j + 1)
         = Ret (MinEdit.EditNode_new DELETE c zero
                  (umul (Z.of_nat j + 1) (cost_at costs DELETE)))) /\
      (forall (i : nat) c, String.get i to = Some c ->
         mget edit_matrix (Z.of_nat i + 1) 0
         = Ret (MinEdit.EditNode_new INSERT zero c
                  (umul (Z.of_nat i + 1) (cost_at costs INSERT))))) /\
  (exists edit_matrix,
      MaxEdit.build_matrix from to costs = Ret edit_matrix /\
      mget edit_matrix 0 0 = Ret (MaxEdit.EditNode_new SKIP zero 0) /\
      (forall (j : nat) c, String.get j from = Some c ->
         mget edit_matrix 0 (Z.of_nat j + 1)
         = Ret (MaxEdit.EditNode_new DELETE zero
                  (umul (Z.of_nat j + 1) (cost_at costs DELETE)))) /\
      (forall (i : nat) c, String.get i to = Some c ->
         mget edit_matrix (Z.of_nat i + 1) 0
         = Ret (MaxEdit.EditNode_new INSERT c
                  (umul (Z.of_nat i + 1) (cost_at costs INSERT))))).
Proof.
  intros Hf Ht. split.
  - destruct (min_build_grid from to costs Hf Ht) as (mx & Hb & Hg).
    exists mx. split; [exact Hb|].
    split; [apply (grid_mget _ _ _ _ O O Hg); lia|].
    split.
    + intros j c Hc. pose proof (string_get_lt _ _ _ Hc).
      replace (Z.of_nat j + 1) with (Z.of_nat (S j)) by lia.
      pose proof (grid_mget _ _ _ _ O (S j) Hg ltac:(lia) ltac:(lia)) as Hr.
      change (Z.of_nat 0) with 0 in Hr. rewrite Hr.
      simpl. rewrite (string_get_char_at _ _ _ Hc). reflexivity.
    + intros i c Hc. pose proof (string_get_lt _ _ _ Hc).
      replace (Z.of_nat i + 1) with (Z.of_nat (S i)) by lia.
      pose proof (grid_mget _ _ _ _ (S i) O Hg ltac:(lia) ltac:(lia)) as Hr.
      change (Z.of_nat 0) with 0 in Hr. rewrite Hr.
      simpl. rewrite (string_get_char_at _ _ _ Hc). reflexivity.
  - destruct (max_build_grid from to costs Hf Ht) as (mx & Hb & Hg).
    exists mx. split; [exact Hb|].
    split; [apply (grid_mget _ _ _ _ O O Hg); lia|].
    split.
    + intros j c Hc. pose proof (string_get_lt _ _ _ Hc).
      replace (Z.of_nat j + 1) with (Z.of_nat (S j)) by lia.
      pose proof (grid_mget _ _ _ _ O (S j) Hg ltac:(lia) ltac:(lia)) as Hr.
      change (Z.of_nat 0) with 0 in Hr. rewrite Hr.
      reflexivity.
    + intros i c Hc. pose proof (string_get_lt _ _ _ Hc).
      replace (Z.of_nat i + 1) with (Z.of_nat (S i)) by lia.
      pose proof (grid_mget _ _ _ _ (S i) O Hg ltac:(lia) ltac:(lia)) as Hr.
      change (Z.of_nat 0) with 0 in Hr. rewrite Hr.
      simpl. rewrite (string_get_char_at _ _ _ Hc). reflexivity.
Qed.

Lemma C6_witness :
  (exists edit_matrix,
      MinEdit.build_matrix "ab" "b" MinEdit.std_edit_costs = Ret edit_matrix /\
      mget edit_matrix 0 0 = Ret (MinEdit.EditNode_new SKIP zero zero 0) /\
      (forall (j : nat) c, String.get j "ab" = Some c ->
         mget edit_matrix 0 (Z.of_nat j + 1)
         = Ret (MinEdit.EditNode_new DELETE c zero
                  (umul (Z.of_nat j + 1) (cost_at MinEdit.std_edit_costs DELETE)))) /\
      (forall (i : nat) c, String.get i "b" = Some c ->
         mget edit_matrix (Z.of_nat i + 1) 0
         = Ret (MinEdit.EditNode_new INSERT zero c
                  (umul (Z.of_nat i + 1) (cost_at MinEdit.std_edit_costs INSERT))))) /\
  (exists edit_matrix,
      MaxEdit.build_matrix "ab" "b" MinEdit.std_edit_costs = Ret edit_matrix /\
      mget edit_matrix 0 0 = Ret (MaxEdit.EditNode_new SKIP zero 0) /\
      (forall (j : nat) c, String.get j "ab" = Some c ->
         mget edit_matrix 0 (Z.of_nat j + 1)
         = Ret (MaxEdit.EditNode_new DELETE zero
                  (umul (Z.of_nat j + 1) (cost_at MinEdit.std_edit_costs DELETE)))) /\
      (forall (i : nat) c, String.get i "b" = Some c ->
         mget edit_matrix (Z.of_nat i + 1) 0
         = Ret (MaxEdit.EditNode_new INSERT c
                  (umul (Z.of_nat i + 1) (cost_at MinEdit.std_edit_costs INSERT))))).
Proof.
  apply (C6_initial_cells "ab" "b" MinEdit.std_edit_costs).
  - unfold fits. vm_compute. reflexivity.
  - unfold fits. vm_compute. reflexivity.
Defined.

(** ** Printing *)

Lemma append_assoc (a b c : string) :
  ((a ++ b) ++ c)%string = (a ++ (b ++ c))%string.
Proof.
  induction a as [|x a IH]; [reflexivity|].
  change (String x ((a ++ b) ++ c) = String x (a ++ (b ++ c)))%string.
  f_equal. exact IH.
Qed.

Lemma append_empty_r (a : string) : (a ++ EmptyString)%string = a.
Proof.
  induction a as [|x a IH]; [reflexivity|].
  change (String x (a ++ EmptyString) = String x a)%string.
  f_equal. exact IH.
Qed.

Lemma fold_left_lines {A} (f : A -> string) (l : list A) (acc : string) :
  fold_left (fun out x => (out ++ f x)%string) l acc
  = (acc ++ lines (map f l))%string.
Proof.
  revert acc. induction l as [|x l IH]; intros acc; simpl.
  - symmetry. apply append_empty_r.
  - rewrite IH. apply append_assoc.
Qed.

(** C7, the claim as stated fails: a SKIP line prints one symbol.  For the
    strings "a" and "a" the program prints the line [SKP a]. *)
Lemma C7_counterexample :
  MinEdit.main 2 ["optedit"; "a"; "a"]%string
  = Ret (mkProcess 0 ("SKP a" ++ nl)%string EmptyString) /\
  MinEdit.edit_rep (MinEdit.mkEdit SKIP "a" "a") = "SKP a"%string.
Proof. split; vm_compute; reflexivity. Qed.

(** C7, amended.  Run on two strings with fuel for the loop, the first
    version exits with status 0 and prints one line per edit of the
    alignment: the tag, then the symbol of [from] unless the edit is an
    INSERT, then the symbol of [to] if the edit is an INSERT or a REPLACE.
    So a SKIP line and a DELETE line print the symbol of [from] alone, an
    INSERT line prints the symbol of [to] alone, and a REPLACE line prints
    both.  The second version prints, for each edit, the tag and the one
    symbol [ch] the edit carries. *)
Theorem C7_printed_lines prog from to (fuel : nat) :
  fits from -> fits to ->
  (String.length from + String.length to <= fuel)%nat ->
  (exists edits,
      MinEdit.compute_optimal_edits fuel from to MinEdit.std_edit_costs = Ret edits /\
      MinEdit.main fuel [prog; from; to]
      = Ret (mkProcess 0
               (lines (map (fun e => (MinEdit.edit_rep e ++ nl)%string) edits))
               EmptyString)) /\
  (forall e,
      MinEdit.edit_rep e
      = match MinEdit.type e with
        | SKIP => ("SKP " ++ str1 (MinEdit.from_ch e))%string
        | DELETE => ("DEL " ++ str1 (MinEdit.from_ch e))%string
        | INSERT => ("INS " ++ str1 (MinEdit.to_ch e))%string
        | REPLACE =>
            ("REP " ++ str1 (MinEdit.from_ch e) ++ " " ++ str1 (MinEdit.to_ch e))%string
        end) /\
  (forall edits,
      MaxEdit.print_edits edits
      = lines (map (fun e => (edit_type_names (MaxEdit.type e) ++ " "
                              ++ str1 (MaxEdit.ch e) ++ nl)%string) edits)).
Proof.
  intros Hf Ht Hfuel. split; [|split].
  - destruct (min_compute_spec from to MinEdit.std_edit_costs fuel Hf Ht Hfuel)
      as (mx & edits & _ & _ & Hrun & _).
    exists edits. split; [exact Hrun|].
    unfold MinEdit.main. simpl. rewrite Hrun. simpl.
    unfold MinEdit.print_edits.
    rewrite (fold_left_lines (fun e => (MinEdit.edit_rep e ++ nl)%string)).
    reflexivity.
  - intros [t f c]. destruct t; reflexivity.
  - intros edits. unfold MaxEdit.print_edits.
    rewrite (fold_left_lines MaxEdit.edit_line). reflexivity.
Qed.

Lemma C7_witness :
  (exists edits,
      MinEdit.compute_optimal_edits 13 "kitten" "sitting" MinEdit.std_edit_costs
      = Ret edits /\
      MinEdit.main 13 ["optedit"; "kitten"; "sitting"]%string
      = Ret (mkProcess 0
               (lines (map (fun e => (MinEdit.edit_rep e ++ nl)%string) edits))
               EmptyString)) /\
  (forall e,
      MinEdit.edit_rep e
      = match MinEdit.type e with
        | SKIP => ("SKP " ++ str1 (MinEdit.from_ch e))%string
        | DELETE => ("DEL " ++ str1 (MinEdit.from_ch e))%string
        | INSERT => ("INS " ++ str1 (MinEdit.to_ch e))%string
        | REPLACE =>
            ("REP " ++ str1 (MinEdit.from_ch e) ++ " " ++ str1 (MinEdit.to_ch e))%string
        end) /\
  (forall edits,
      MaxEdit.print_edits edits
      = lines (map (fun e => (edit_type_names (MaxEdit.type e) ++ " "
                              ++ str1 (MaxEdit.ch e) ++ nl)%string) edits)).
Proof.
  apply (C7_printed_lines "optedit" "kitten" "sitting" 13).
  - unfold fits. vm_compute. reflexivity.
  - unfold fits. vm_compute. reflexivity.
  - simpl. lia.
Defined.

(** ** Sensitivity to the cost of REPLACE *)

Lemma count_not_length (l : list MinEdit.Edit) :
  (length l <= MinEdit.count_not INSERT l + MinEdit.count_not DELETE l)%nat.
Proof.
  unfold MinEdit.count_not. induction l as [|e l IH]; simpl; [lia|].
  rewrite !filter_cons.
  destruct (decide (MinEdit.type e <> INSERT)) as [Hx|Hx],
    (decide (MinEdit.type e <> DELETE)) as [Hy|Hy]; simpl; try lia.
  exfalso. apply dec_stable in Hx. apply dec_stable in Hy. congruence.
Qed.

Lemma exact_cost_bound costs C (l : list MinEdit.Edit) :
  (forall t, 0 <= cost_at costs t <= C) ->
  0 <= MinEdit.exact_cost costs l <= Z.of_nat (length l) * C.
Proof.
  intros Hc. induction l as [|e l IH]; simpl; [lia|].
  fold (MinEdit.exact_cost costs l). specialize (Hc (MinEdit.type e)). nia.
Qed.

(** With fuel and without wrap the first version returns edits whose
    costs sum, in [unsigned] and in unbounded integers alike, to the cost
    of the terminal cell. *)
Lemma min_total_no_wrap from to costs C (fuel : nat) :
  fits from -> fits to ->
  (String.length from + String.length to <= fuel)%nat ->
  no_wrap from to costs C ->
  exists edits,
    MinEdit.compute_optimal_edits fuel from to costs = Ret edits /\
    MinEdit.total_cost costs edits
    = MinEdit.cost (Engine.spec_cell min_engine from to costs
                      (String.length to) (String.length from)) /\
    MinEdit.exact_cost costs edits = MinEdit.total_cost costs edits.
Proof.
  intros Hf Ht Hfuel [Hc Hw].
  destruct (min_compute_spec from to costs fuel Hf Ht Hfuel)
    as (mx & edits & _ & _ & Hrun & Hci & Hcd & Hcost).
  exists edits. split; [exact Hrun|]. split; [exact Hcost|].
  rewrite total_cost_exact. symmetry. apply uwrap_small.
  pose proof (exact_cost_bound costs C edits Hc) as Hb.
  pose proof (count_not_length edits) as Hlen.
  assert (HC : 0 <= C) by (specialize (Hc SKIP); lia).
  nia.
Qed.

Lemma no_wrap_with_replace from to costs r C :
  no_wrap from to costs C -> 0 <= r <= C ->
  no_wrap from to (with_replace costs r) C.
Proof.
  intros [Hc Hw] Hr. split; [|exact Hw].
  intros t. specialize (Hc t). destruct t; simpl in *; lia.
Qed.

Lemma with_replace_le costs r t :
  cost_REPLACE costs <= r -> cost_at costs t <= cost_at (with_replace costs r) t.
Proof. intros H. destruct t; simpl; lia. Qed.

(** C8, the claim as stated fails.  Under the second version (comparisons
    with [>]) a larger cost of REPLACE makes the cost of the terminal cell
    larger: for "a" and "b" under the costs [{1, 1, 1, 0}] the terminal
    cell costs 2, with the cost of REPLACE raised to 5 it costs 5.  Under
    the first version the sum can go down when costs wrap: for "ab" and
    "cd" under [{0, 2^30, 2^30, 2^30}] the edits cost [2^31], with the
    cost of REPLACE raised to [2^31 + 1] they cost 0 in [unsigned]. *)
Lemma C8_counterexample :
  (exists edit_matrix edit_matrix',
      MaxEdit.build_matrix "a" "b" (mkEditCosts 1 1 1 0) = Ret edit_matrix /\
      MaxEdit.build_matrix "a" "b" (with_replace (mkEditCosts 1 1 1 0) 5)
      = Ret edit_matrix' /\
      mget edit_matrix 1 1 = Ret (MaxEdit.EditNode_new DELETE "b" 2) /\
      mget edit_matrix' 1 1 = Ret (MaxEdit.EditNode_new REPLACE "b" 5)) /\
  (exists edits edits',
      MinEdit.compute_optimal_edits 4 "ab" "cd"
        (mkEditCosts 0 1073741824 1073741824 1073741824) = Ret edits /\
      MinEdit.compute_optimal_edits 4 "ab" "cd"
        (with_replace (mkEditCosts 0 1073741824 1073741824 1073741824) 2147483649)
      = Ret edits' /\
      MinEdit.total_cost (mkEditCosts 0 1073741824 1073741824 1073741824) edits
      = 2147483648 /\
      MinEdit.total_cost
        (with_replace (mkEditCosts 0 1073741824 1073741824 1073741824) 2147483649)
        edits' = 0).
Proof.
  split.
  - eexists. eexists. split; [vm_compute; reflexivity|].
    split; [vm_compute; reflexivity|]. split; reflexivity.
  - eexists. eexists. split; [vm_compute; reflexivity|].
    split; [vm_compute; reflexivity|]. split; vm_compute; reflexivity.
Qed.

(** C8, amended.  Let the costs lie between 0 and [C], with
    [(length from + length to) * C] below [2^32] (no sum of costs wraps),
    and let the cost of REPLACE be raised to [r <= C], the other costs
    fixed.  Then the total cost of the alignment the first version returns
    does not go down; and the cost the second version stores in the
    terminal cell does not go down either. *)
Theorem C8_replace_cost_monotone from to costs (r C : Z) (fuel : nat) :
  fits from -> fits to ->
  (String.length from + String.length to <= fuel)%nat ->
  no_wrap from to costs C ->
  cost_REPLACE costs <= r <= C ->
  (exists edits edits',
      MinEdit.compute_optimal_edits fuel from to costs = Ret edits /\
      MinEdit.compute_optimal_edits fuel from to (with_replace costs r) = Ret edits' /\
      MinEdit.exact_cost costs edits = MinEdit.total_cost costs edits /\
      MinEdit.exact_cost (with_replace costs r) edits'
      = MinEdit.total_cost (with_replace costs r) edits' /\
      MinEdit.total_cost costs edits
      <= MinEdit.total_cost (with_replace costs r) edits') /\
  (exists edit_matrix edit_matrix' cell cell',
      MaxEdit.build_matrix from to costs = Ret edit_matrix /\
      MaxEdit.build_matrix from to (with_replace costs r) = Ret edit_matrix' /\
      mget edit_matrix (str_length to) (str_length from) = Ret cell /\
      mget edit_matrix' (str_length to) (str_length from) = Ret cell' /\
      MaxEdit.cost cell <= MaxEdit.cost cell').
Proof.
  intros Hf Ht Hfuel Hw Hr.
  assert (Hw' : no_wrap from to (with_replace costs r) C).
  { apply no_wrap_with_replace; [exact Hw|].
    destruct Hw as [Hc _]. specialize (Hc REPLACE). simpl in Hc. lia. }
  split.
  - destruct (min_total_no_wrap from to costs C fuel Hf Ht Hfuel Hw)
      as (edits & Hrun & Hcost & Hex).
    destruct (min_total_no_wrap from to (with_replace costs r) C fuel Hf Ht Hfuel Hw')
      as (edits' & Hrun' & Hcost' & Hex').
    exists edits, edits'. repeat (split; [assumption|]).
    rewrite Hcost, Hcost'.
    apply (spec_cost_mono min_engine from to costs (with_replace costs r) C);
      try assumption; try lia.
    + intros a b c a' b' c' rt Ha Hb Hc.
      change (better min_engine) with Z.ltb. rewrite !choose_edit_min. lia.
    + intros t. apply with_replace_le. lia.
  - destruct (max_build_grid from to costs Hf Ht) as (mx & Hb & Hg).
    destruct (max_build_grid from to (with_replace costs r) Hf Ht) as (mx' & Hb' & Hg').
    exists mx, mx', (Engine.spec_cell max_engine from to costs
                       (String.length to) (String.length from)),
      (Engine.spec_cell max_engine from to (with_replace costs r)
         (String.length to) (String.length from)).
    split; [exact Hb|]. split; [exact Hb'|].
    rewrite !str_length_fits by assumption.
    split; [apply (grid_mget _ _ _ _ _ _ Hg); lia|].
    split; [apply (grid_mget _ _ _ _ _ _ Hg'); lia|].
    apply (spec_cost_mono max_engine from to costs (with_replace costs r) C);
      try assumption; try lia.
    + intros a b c a' b' c' rt Ha Hb0 Hc.
      change (better max_engine) with Z.gtb. rewrite !choose_edit_max. lia.
    + intros t. apply with_replace_le. lia.
Qed.

Lemma C8_witness :
  (exists edits edits',
      MinEdit.compute_optimal_edits 13 "kitten" "sitting" MinEdit.std_edit_costs
      = Ret edits /\
      MinEdit.compute_optimal_edits 13 "kitten" "sitting"
        (with_replace MinEdit.std_edit_costs 12) = Ret edits' /\
      MinEdit.exact_cost MinEdit.std_edit_costs edits
      = MinEdit.total_cost MinEdit.std_edit_costs edits /\
      MinEdit.exact_cost (with_replace MinEdit.std_edit_costs 12) edits'
      = MinEdit.total_cost (with_replace MinEdit.std_edit_costs 12) edits' /\
      MinEdit.total_cost MinEdit.std_edit_costs edits
      <= MinEdit.total_cost (with_replace MinEdit.std_edit_costs 12) edits') /\
  (exists edit_matrix edit_matrix' cell cell',
      MaxEdit.build_matrix "kitten" "sitting" MinEdit.std_edit_costs = Ret edit_matrix /\
      MaxEdit.build_matrix "kitten" "sitting" (with_replace MinEdit.std_edit_costs 12)
      = Ret edit_matrix' /\
      mget edit_matrix (str_length "sitting") (str_length "kitten") = Ret cell /\
      mget edit_matrix' (str_length "sitting") (str_length "kitten") = Ret cell' /\
      MaxEdit.cost cell <= MaxEdit.cost cell').
Proof.
  apply (C8_replace_cost_monotone "kitten" "sitting" MinEdit.std_edit_costs 12 15 13).
  - unfold fits. vm_compute. reflexivity.
  - unfold fits. vm_compute. reflexivity.
  - simpl. lia.
  - split.
    + intros t. destruct t; simpl; lia.
    + vm_compute. reflexivity.
  - simpl. lia.
Defined.

(** ** A string against itself *)

Lemma lookup_list_ascii s (i : nat) : list_ascii_of_string s !! i = String.get i s.
Proof.
  revert i. induction s as [|c s IH]; intros i; simpl.
  - destruct i; reflexivity.
  - destruct i as [|i]; [reflexivity|]. apply IH.
Qed.

Lemma length_list_ascii s : length (list_ascii_of_string s) = String.length s.
Proof. induction s as [|c s IH]; simpl; [reflexivity|]. rewrite IH. reflexivity. Qed.

Lemma choose_edit_last ins del rep rt :
  rep <= ins -> rep <= del -> Engine.choose_edit Z.ltb ins del rep rt = (rep, rt).
Proof.
  intros Hi Hd. unfold Engine.choose_edit.
  destruct (Z.ltb_spec ins del), (Z.ltb_spec ins rep), (Z.ltb_spec del rep);
    simpl; try reflexivity; lia.
Qed.

Section Identity.
Context (s : string) (costs : EditCosts).

Local Abbreviation spec := (Engine.spec_cell min_engine s s costs).
Local Abbreviation n := (String.length s).

Lemma spec_diag_inner (k : nat) :
  spec (S k) (S k)
  = let c := Engine.char_at s k in
    let ins_cost := uadd (MinEdit.cost (spec k (S k))) (cost_at costs INSERT) in
    let del_cost := uadd (MinEdit.cost (spec (S k) k)) (cost_at costs DELETE) in
    let rep_cost := uadd (MinEdit.cost (spec k k)) (cost_at costs SKIP) in
    let chosen := Engine.choose_edit Z.ltb ins_cost del_cost rep_cost SKIP in
    MinEdit.EditNode_new (snd chosen) c c (fst chosen).
Proof.
  rewrite (spec_inner min_engine s s costs k k). cbv zeta.
  rewrite Ascii.eqb_refl. reflexivity.
Qed.

(** A free SKIP: the diagonal costs 0 and holds SKIP. *)
Lemma diag_free_skip (k : nat) :
  cost_SKIP costs = 0 ->
  MinEdit.cost (spec k k) = 0 /\
  (forall k', k = S k' ->
     MinEdit.edit (spec k k) = MinEdit.skip_of (Engine.char_at s k')).
Proof.
  intros HS. induction k as [|k [IHc _]].
  - split; [reflexivity|]. intros k' H. discriminate.
  - rewrite spec_diag_inner. cbv zeta. rewrite IHc.
    change (cost_at costs SKIP) with (cost_SKIP costs). rewrite HS.
    change (uadd 0 0) with 0.
    rewrite choose_edit_last by apply uadd_range.
    split; [reflexivity|]. intros k' H. injection H as <-. reflexivity.
Qed.

(** SKIP the cheapest edit and no wrap: a cell costs at least as many
    SKIPs as the larger of its coordinates. *)
Lemma spec_cost_lower C (i j : nat) :
  no_wrap s s costs C -> (forall t, cost_SKIP costs <= cost_at costs t) ->
  (i <= n)%nat -> (j <= n)%nat ->
  Z.of_nat (Nat.max i j) * cost_SKIP costs <= MinEdit.cost (spec i j).
Proof.
  intros Hw Hle.
  assert (Hb := fun i j => spec_cost_bound min_engine s s costs C i j Hw).
  change (node_cost min_engine) with MinEdit.cost in Hb.
  destruct Hw as [Hc Hwr].
  assert (HC : 0 <= C) by (specialize (Hc SKIP); lia).
  assert (HS : 0 <= cost_SKIP costs) by (specialize (Hc SKIP); simpl in Hc; lia).
  assert (Hadd : forall (i j : nat) t,
             (i <= n)%nat -> (j <= n)%nat -> (S (i + j) <= n + n)%nat ->
             uadd (MinEdit.cost (spec i j)) (cost_at costs t)
             = MinEdit.cost (spec i j) + cost_at costs t).
  { intros i0 j0 t Hi0 Hj0 Hs. specialize (Hc t).
    specialize (Hb i0 j0 Hi0 Hj0). apply uadd_small. nia. }
  revert j. induction i as [|i IHi]; intros j Hi Hj.
  - pose proof (spec_row0_cost min_engine s s costs j) as Hrow.
    change (node_cost min_engine) with MinEdit.cost in Hrow. rewrite Hrow.
    unfold umul. rewrite uwrap_small.
    + specialize (Hle DELETE). rewrite Nat.max_0_l. nia.
    + specialize (Hc DELETE). nia.
  - induction j as [|j IHj].
    + pose proof (spec_col0_cost min_engine s s costs (S i)) as Hcol.
      change (node_cost min_engine) with MinEdit.cost in Hcol. rewrite Hcol.
      unfold umul. rewrite uwrap_small.
      * specialize (Hle INSERT). rewrite Nat.max_0_r. nia.
      * specialize (Hc INSERT). nia.
    + rewrite (spec_inner min_engine s s costs i j). cbv zeta.
      change (MinEdit.cost (MinEdit.EditNode_new ?t ?f ?c ?k)) with k.
      change (better min_engine) with Z.ltb.
      change (node_cost min_engine) with MinEdit.cost.
      rewrite choose_edit_min.
      set (rt := if Ascii.eqb (Engine.char_at s j) (Engine.char_at s i)
                 then SKIP else REPLACE).
      rewrite !Hadd by lia.
      specialize (IHi (S j) ltac:(lia) ltac:(lia)) as H1.
      specialize (IHj ltac:(lia)) as H2.
      specialize (IHi j ltac:(lia) ltac:(lia)) as H3.
      pose proof (Hle INSERT) as L1. pose proof (Hle DELETE) as L2.
      pose proof (Hle rt) as L3.
      assert (E1 : Z.of_nat (Nat.max (S i) (S j)) <= Z.of_nat (Nat.max i (S j)) + 1) by lia.
      assert (E2 : Z.of_nat (Nat.max (S i) (S j)) <= Z.of_nat (Nat.max (S i) j) + 1) by lia.
      assert (E3 : Z.of_nat (Nat.max (S i) (S j)) <= Z.of_nat (Nat.max i j) + 1) by lia.
      assert (Hstep : forall a c k,
                 Z.of_nat (Nat.max (S i) (S j)) <= a + 1 ->
                 a * cost_SKIP costs <= c -> cost_SKIP costs <= k ->
                 Z.of_nat (Nat.max (S i) (S j)) * cost_SKIP costs <= c + k).
      { intros a c k Ha Hac Hk.
        apply Z.le_trans with ((a + 1) * cost_SKIP costs).
        - apply Z.mul_le_mono_nonneg_r; assumption.
        - rewrite Z.mul_add_distr_r. lia. }
      apply Z.min_glb; [|apply Z.min_glb].
      * apply (Hstep _ _ _ E1 H1 L1).
      * apply (Hstep _ _ _ E2 H2 L2).
      * apply (Hstep _ _ _ E3 H3 L3).
Qed.

End Identity.

Lemma string_get_in_range s (i : nat) :
  (i < String.length s)%nat -> String.get i s = Some (Engine.char_at s i).
Proof.
  intros H. pose proof (str_at_char_at s i H) as Hs.
  unfold str_at in Hs. rewrite Nat2Z.id in Hs.
  destruct (String.get i s) as [c|]; [|discriminate].
  injection Hs as ->. reflexivity.
Qed.

(** SKIP the cheapest edit and no wrap: the diagonal holds SKIP. *)
Lemma diag_cheap_skip s costs C (k : nat) :
  no_wrap s s costs C -> (forall t, cost_SKIP costs <= cost_at costs t) ->
  (k <= String.length s)%nat ->
  MinEdit.cost (Engine.spec_cell min_engine s s costs k k)
  = Z.of_nat k * cost_SKIP costs /\
  (forall k', k = S k' ->
     MinEdit.edit (Engine.spec_cell min_engine s s costs k k)
     = MinEdit.skip_of (Engine.char_at s k')).
Proof.
  intros Hw Hle.
  assert (Hb := fun i j => spec_cost_bound min_engine s s costs C i j Hw).
  change (node_cost min_engine) with MinEdit.cost in Hb.
  assert (Hlow := fun i j => spec_cost_lower s costs C i j Hw Hle).
  destruct Hw as [Hc Hwr].
  assert (HC : 0 <= C) by (specialize (Hc SKIP); lia).
  assert (HS : 0 <= cost_SKIP costs <= C) by (specialize (Hc SKIP); simpl in Hc; lia).
  induction k as [|k IH]; intros Hk.
  - split; [reflexivity|]. intros k' H. discriminate.
  - destruct (IH ltac:(lia)) as [IHc _].
    rewrite spec_diag_inner. cbv zeta.
    assert (Hadd : forall (i j : nat) t,
               (i <= String.length s)%nat -> (j <= String.length s)%nat ->
               (S (i + j) <= String.length s + String.length s)%nat ->
               uadd (MinEdit.cost (Engine.spec_cell min_engine s s costs i j))
                    (cost_at costs t)
               = MinEdit.cost (Engine.spec_cell min_engine s s costs i j)
                 + cost_at costs t).
    { intros i0 j0 t Hi0 Hj0 Hs. specialize (Hc t).
      specialize (Hb i0 j0 Hi0 Hj0). apply uadd_small. nia. }
    rewrite !Hadd by lia. rewrite IHc.
    pose proof (Hlow k (S k) ltac:(lia) ltac:(lia)) as H1.
    pose proof (Hlow (S k) k ltac:(lia) ltac:(lia)) as H2.
    rewrite Nat.max_r in H1 by lia. rewrite Nat.max_l in H2 by lia.
    pose proof (Hle INSERT) as L1. pose proof (Hle DELETE) as L2.
    change (cost_at costs SKIP) with (cost_SKIP costs).
    assert (E : Z.of_nat (S k) * cost_SKIP costs
                = Z.of_nat k * cost_SKIP costs + cost_SKIP costs) by lia.
    rewrite choose_edit_last by lia.
    split; [simpl; lia|]. intros k' H. injection H as <-. reflexivity.
Qed.

(** Along a diagonal of SKIPs the replay loop returns one SKIP per symbol. *)
Lemma replay_diag s costs mx (i : nat) :
  fits s ->
  Engine.grid_is mx (S (String.length s)) (S (String.length s))
    (Engine.spec_cell min_engine s s costs) ->
  (forall k, (k < i)%nat ->
     MinEdit.edit (Engine.spec_cell min_engine s s costs (S k) (S k))
     = MinEdit.skip_of (Engine.char_at s k)) ->
  (i <= String.length s)%nat ->
  forall (fuel : nat) acc, (i <= fuel)%nat ->
  MinEdit.replay fuel mx (Z.of_nat i) (Z.of_nat i) acc
  = Ret (map MinEdit.skip_of (take i (list_ascii_of_string s)) ++ acc).
Proof.
  intros Hf Hg. unfold fits in Hf. induction i as [|i IH]; intros Hd Hi fuel acc Hfuel.
  - destruct fuel; reflexivity.
  - destruct fuel as [|fuel]; [lia|]. cbn [MinEdit.replay].
    replace ((0 <? Z.of_nat (S i)) || (0 <? Z.of_nat (S i))) with true.
    2:{ symmetry. apply orb_true_iff. left. apply Z.ltb_lt. lia. }
    rewrite (grid_mget _ _ _ _ (S i) (S i) Hg) by lia.
    rewrite bind_Ret. cbv beta zeta. rewrite (Hd i) by lia.
    change (MinEdit.type (MinEdit.skip_of (Engine.char_at s i))) with SKIP.
    destruct (decide (SKIP <> INSERT)) as [_|Hx]; [|exfalso; apply Hx; discriminate].
    destruct (decide (SKIP <> DELETE)) as [_|Hx]; [|exfalso; apply Hx; discriminate].
    rewrite usub_nat_S by lia.
    rewrite IH; [|intros k Hk; apply Hd; lia|lia|lia].
    rewrite (take_S_r _ i (Engine.char_at s i)).
    2:{ rewrite lookup_list_ascii. apply string_get_in_range. lia. }
    rewrite map_app, <- app_assoc. reflexivity.
Qed.

Lemma exact_cost_skips costs (l : list ascii) :
  MinEdit.exact_cost costs (map MinEdit.skip_of l)
  = Z.of_nat (length l) * cost_SKIP costs.
Proof.
  induction l as [|c l IH]; [reflexivity|].
  change (cost_SKIP costs + MinEdit.exact_cost costs (map MinEdit.skip_of l)
          = Z.of_nat (S (length l)) * cost_SKIP costs).
  rewrite IH. lia.
Qed.

(** C2, the claim as stated fails.  Under the costs of the program SKIP
    costs 1, and "a" against "a" is one SKIP of total cost 1, not 0.  Under
    costs that make SKIP dearer than DELETE and INSERT together, here
    [{100, 1, 1, 1}], the alignment of "a" with "a" is an INSERT and a
    DELETE. *)
Lemma C2_counterexample :
  MinEdit.compute_optimal_edits 2 "a" "a" MinEdit.std_edit_costs
  = Ret [MinEdit.skip_of "a"] /\
  MinEdit.total_cost MinEdit.std_edit_costs [MinEdit.skip_of "a"] = 1 /\
  MinEdit.compute_optimal_edits 2 "a" "a" (mkEditCosts 100 1 1 1)
  = Ret [MinEdit.mkEdit INSERT zero "a"; MinEdit.mkEdit DELETE "a" "a"].
Proof. repeat split; vm_compute; reflexivity. Qed.

(** C2, amended.  Let SKIP be free, or let SKIP be the cheapest edit with
    costs between 0 and [C] and [2 * length s * C] below [2^32].  Then the
    first version, run on [s] and [s] with fuel for the loop, returns one
    SKIP per symbol of [s], in order, each carrying that symbol; the total
    cost is [length s * costs[SKIP]], which is 0 when SKIP is free. *)
Theorem C2_identity_skips s costs (C : Z) (fuel : nat) :
  fits s ->
  (String.length s + String.length s <= fuel)%nat ->
  cost_SKIP costs = 0 \/
  (no_wrap s s costs C /\ forall t, cost_SKIP costs <= cost_at costs t) ->
  MinEdit.compute_optimal_edits fuel s s costs
  = Ret (map MinEdit.skip_of (list_ascii_of_string s)) /\
  MinEdit.exact_cost costs (map MinEdit.skip_of (list_ascii_of_string s))
  = Z.of_nat (String.length s) * cost_SKIP costs /\
  (cost_SKIP costs = 0 ->
   MinEdit.total_cost costs (map MinEdit.skip_of (list_ascii_of_string s)) = 0).
Proof.
  intros Hf Hfuel Hcase.
  destruct (min_build_grid s s costs Hf Hf) as (mx & Hb & Hg).
  split; [|split].
  - unfold MinEdit.compute_optimal_edits. rewrite Hb. simpl mbind.
    rewrite str_length_fits by assumption.
    rewrite (replay_diag s costs mx (String.length s) Hf Hg); try lia.
    + rewrite app_nil_r, <- length_list_ascii, firstn_all. reflexivity.
    + intros k Hk. destruct Hcase as [HS | [Hw Hle]].
      * apply (diag_free_skip s costs (S k) HS). reflexivity.
      * apply (diag_cheap_skip s costs C (S k) Hw Hle); [lia|reflexivity].
  - rewrite exact_cost_skips, length_list_ascii. reflexivity.
  - intros HS. rewrite total_cost_exact, exact_cost_skips, HS, Z.mul_0_r.
    reflexivity.
Qed.

Lemma C2_witness :
  MinEdit.compute_optimal_edits 6 "abc" "abc" MinEdit.std_edit_costs
  = Ret (map MinEdit.skip_of (list_ascii_of_string "abc")) /\
  MinEdit.exact_cost MinEdit.std_edit_costs
    (map MinEdit.skip_of (list_ascii_of_string "abc"))
  = Z.of_nat (String.length "abc") * cost_SKIP MinEdit.std_edit_costs /\
  (cost_SKIP MinEdit.std_edit_costs = 0 ->
   MinEdit.total_cost MinEdit.std_edit_costs
     (map MinEdit.skip_of (list_ascii_of_string "abc")) = 0).
Proof.
  apply (C2_identity_skips "abc" MinEdit.std_edit_costs 15 6).
  - unfold fits. vm_compute. reflexivity.
  - simpl. lia.
  - right. split.
    + split.
      * intros t. destruct t; simpl; lia.
      * vm_compute. reflexivity.
    + intros t. destruct t; simpl; lia.
Defined.


(* ===================================================================== *)
(** * Part IV: further properties of the code *)
(* ===================================================================== *)

(** ** The edits stored in the cells *)

Section MinCells.
Context (from to : string) (costs : EditCosts).

Local Abbreviation spec := (Engine.spec_cell min_engine from to costs).

(** The edit of a cell other than the origin: it is well typed, it carries
    the symbol of [from] before its column unless it is an INSERT, and the
    symbol of [to] before its row unless it is a DELETE. *)
Lemma min_cell_edit (i j : nat) :
  (i <> O \/ j <> O) ->
  well_typed (MinEdit.edit (spec i j)) /\
  (MinEdit.type (MinEdit.edit (spec i j)) <> INSERT ->
   exists j', j = S j' /\
              MinEdit.from_ch (MinEdit.edit (spec i j)) = Engine.char_at from j') /\
  (MinEdit.type (MinEdit.edit (spec i j)) <> DELETE ->
   exists i', i = S i' /\
              MinEdit.to_ch (MinEdit.edit (spec i j)) = Engine.char_at to i').
Proof.
  intros Hne. destruct i as [|i], j as [|j].
  - exfalso. destruct Hne as [H|H]; apply H; reflexivity.
  - simpl. split; [split; intros H; discriminate|].
    split; [intros _; exists j; auto|]. intros H. exfalso. apply H. reflexivity.
  - simpl. split; [split; intros H; discriminate|].
    split; [|intros _; exists i; auto]. intros H. exfalso. apply H. reflexivity.
  - rewrite (spec_inner min_engine from to costs i j). cbv zeta.
    set (fc := Engine.char_at from j). set (tc := Engine.char_at to i).
    set (rt := if Ascii.eqb fc tc then SKIP else REPLACE).
    change (better min_engine) with Z.ltb.
    change (node_cost min_engine) with MinEdit.cost.
    set (chosen := Engine.choose_edit Z.ltb _ _ _ rt).
    change (MinEdit.edit (cell_node min_engine chosen.2 fc tc chosen.1))
      with (MinEdit.mkEdit chosen.2 fc tc).
    cbn [MinEdit.type MinEdit.from_ch MinEdit.to_ch].
    split; [|split; [intros _; exists j; auto|intros _; exists i; auto]].
    assert (Hc : chosen.2 = INSERT \/ chosen.2 = DELETE \/ chosen.2 = rt).
    { unfold chosen.
      destruct (choose_edit_cases Z.ltb
                  (uadd (MinEdit.cost (spec i (S j))) (cost_at costs INSERT))
                  (uadd (MinEdit.cost (spec (S i) j)) (cost_at costs DELETE))
                  (uadd (MinEdit.cost (spec i j)) (cost_at costs rt)) rt)
        as [-> | [-> | ->]]; auto. }
    unfold well_typed. cbn [MinEdit.type MinEdit.from_ch MinEdit.to_ch].
    unfold rt in Hc. destruct (Ascii.eqb_spec fc tc) as [Heq|Hneq].
    + split; [intros _; exact Heq|].
      intros H. destruct Hc as [Hc | [Hc | Hc]]; congruence.
    + split; [|intros _; exact Hneq].
      intros H. destruct Hc as [Hc | [Hc | Hc]]; congruence.
Qed.

Lemma from_symbols_snoc l e :
  from_symbols (l ++ [e])
  = from_symbols l
    ++ (if decide (MinEdit.type e <> INSERT) then [MinEdit.from_ch e] else []).
Proof.
  unfold from_symbols. rewrite filter_app, map_app. f_equal.
  rewrite filter_cons, filter_nil.
  destruct (decide (MinEdit.type e <> INSERT)); reflexivity.
Qed.

Lemma to_symbols_snoc l e :
  to_symbols (l ++ [e])
  = to_symbols l
    ++ (if decide (MinEdit.type e <> DELETE) then [MinEdit.to_ch e] else []).
Proof.
  unfold to_symbols. rewrite filter_app, map_app. f_equal.
  rewrite filter_cons, filter_nil.
  destruct (decide (MinEdit.type e <> DELETE)); reflexivity.
Qed.

Lemma take_chars_S s (i : nat) :
  (i < String.length s)%nat ->
  take (S i) (list_ascii_of_string s)
  = take i (list_ascii_of_string s) ++ [Engine.char_at s i].
Proof.
  intros H. apply take_S_r. rewrite lookup_list_ascii.
  apply string_get_in_range. exact H.
Qed.

(** From any cell of the finished matrix the replay loop returns an edit
    script for the prefixes of [from] and [to] the cell stands for. *)
Lemma replay_script edit_matrix (fuel i j : nat) (acc : list MinEdit.Edit) :
  fits from -> fits to ->
  Engine.grid_is edit_matrix (S (String.length to)) (S (String.length from)) spec ->
  (i <= String.length to)%nat -> (j <= String.length from)%nat ->
  (i + j <= fuel)%nat ->
  exists l,
    MinEdit.replay fuel edit_matrix (Z.of_nat j) (Z.of_nat i) acc = Ret (l ++ acc) /\
    from_symbols l = take j (list_ascii_of_string from) /\
    to_symbols l = take i (list_ascii_of_string to) /\
    Forall well_typed l.
Proof.
  intros Hf Ht Hg. unfold fits in Hf, Ht.
  revert i j acc. induction fuel as [|fuel IH]; intros i j acc Hi Hj Hfuel.
  - assert (i = O) by lia. assert (j = O) by lia. subst.
    exists []. simpl. auto.
  - destruct (decide (i = O /\ j = O)) as [[-> ->]|Hne].
    { exists []. simpl. auto. }
    assert (Hne' : i <> O \/ j <> O).
    { destruct i; [|left; discriminate]. destruct j; [|right; discriminate].
      exfalso. apply Hne. auto. }
    cbn [MinEdit.replay].
    replace ((0 <? Z.of_nat j) || (0 <? Z.of_nat i)) with true.
    2:{ symmetry. apply orb_true_iff.
        destruct (Z.ltb_spec 0 (Z.of_nat j)), (Z.ltb_spec 0 (Z.of_nat i));
          auto. exfalso. apply Hne. lia. }
    rewrite (grid_mget _ _ _ _ i j Hg) by lia. rewrite bind_Ret. cbv beta zeta.
    destruct (spec_step min_engine from to costs i j Hne')
      as (i' & j' & Hi' & Hj' & _).
    destruct (min_cell_edit i j Hne') as (Hwt & Hfc & Htc).
    change (node_type min_engine (spec i j))
      with (MinEdit.type (MinEdit.edit (spec i j))) in *.
    set (ed := MinEdit.edit (spec i j)) in *.
    assert (Hfrom : (if decide (MinEdit.type ed <> INSERT)
                     then usub (Z.of_nat j) 1 else Z.of_nat j) = Z.of_nat j').
    { destruct (decide (MinEdit.type ed <> INSERT)); subst j.
      - apply usub_nat_S. lia.
      - reflexivity. }
    assert (Hto : (if decide (MinEdit.type ed <> DELETE)
                   then usub (Z.of_nat i) 1 else Z.of_nat i) = Z.of_nat i').
    { destruct (decide (MinEdit.type ed <> DELETE)); subst i.
      - apply usub_nat_S. lia.
      - reflexivity. }
    rewrite Hfrom, Hto.
    assert (Hdec : (i' <= String.length to /\ j' <= String.length from
                    /\ i' + j' <= fuel)%nat).
    { destruct (decide (MinEdit.type ed <> INSERT)) as [Hx|Hx],
        (decide (MinEdit.type ed <> DELETE)) as [Hy|Hy]; subst; try lia.
      exfalso. apply dec_stable in Hx. apply dec_stable in Hy. congruence. }
    destruct (IH i' j' (ed :: acc)) as (l & Hrun & Hfs & Hts & Hall); try lia.
    exists (l ++ [ed]). split.
    { rewrite Hrun, <- app_assoc. reflexivity. }
    rewrite from_symbols_snoc, to_symbols_snoc, Hfs, Hts.
    split; [|split].
    + destruct (decide (MinEdit.type ed <> INSERT)) as [Hx|Hx].
      * destruct (Hfc Hx) as (j0 & -> & ->). injection Hj' as <-.
        symmetry. apply take_chars_S. lia.
      * subst j'. apply app_nil_r.
    + destruct (decide (MinEdit.type ed <> DELETE)) as [Hy|Hy].
      * destruct (Htc Hy) as (i0 & -> & ->). injection Hi' as <-.
        symmetry. apply take_chars_S. lia.
      * subst i'. apply app_nil_r.
    + apply Forall_app. split; [exact Hall|]. constructor; [exact Hwt|constructor].
Qed.

End MinCells.

(** ** What the first version returns *)

(** X1.  Run on strings shorter than [2^32 - 1] with fuel for
    [length from + length to] iterations, the first version returns; the
    edits that are not INSERTs are as many as the symbols of [from], the
    edits that are not DELETEs as many as the symbols of [to], and the
    number of edits lies between the longer length and the sum of the two
    lengths. *)
Theorem X1_min_returns_lengths from to costs (fuel : nat) :
  fits from -> fits to ->
  (String.length from + String.length to <= fuel)%nat ->
  exists edits,
    MinEdit.compute_optimal_edits fuel from to costs = Ret edits /\
    MinEdit.count_not INSERT edits = String.length from /\
    MinEdit.count_not DELETE edits = String.length to /\
    (Nat.max (String.length from) (String.length to) <= length edits
     <= String.length from + String.length to)%nat.
Proof.
  intros Hf Ht Hfuel.
  destruct (min_compute_spec from to costs fuel Hf Ht Hfuel)
    as (mx & edits & _ & _ & Hrun & Hci & Hcd & _).
  exists edits. split; [exact Hrun|]. split; [exact Hci|]. split; [exact Hcd|].
  pose proof (count_not_length edits) as Hlen.
  assert (H1 : (MinEdit.count_not INSERT edits <= length edits)%nat)
    by apply length_filter.
  assert (H2 : (MinEdit.count_not DELETE edits <= length edits)%nat)
    by apply length_filter.
  lia.
Qed.

Lemma X1_witness :
  exists edits,
    MinEdit.compute_optimal_edits 13 "kitten" "sitting" MinEdit.std_edit_costs
    = Ret edits /\
    MinEdit.count_not INSERT edits = String.length "kitten" /\
    MinEdit.count_not DELETE edits = String.length "sitting" /\
    (Nat.max (String.length "kitten") (String.length "sitting") <= length edits
     <= String.length "kitten" + String.length "sitting")%nat.
Proof.
  apply (X1_min_returns_lengths "kitten" "sitting" MinEdit.std_edit_costs 13).
  - unfold fits. vm_compute. reflexivity.
  - unfold fits. vm_compute. reflexivity.
  - simpl. lia.
Defined.

(** X2.  Whatever the fuel, every cell the replay loop of the first version
    reads has its row between 0 and [length to] and its column between 0
    and [length from]: the loop never leaves the matrix, and its cursor
    never wraps below 0. *)
Theorem X2_min_replay_stays_in_matrix from to costs (fuel : nat) :
  fits from -> fits to ->
  exists edit_matrix,
    MinEdit.build_matrix from to costs = Ret edit_matrix /\
    length edit_matrix = S (String.length to) /\
    Forall (fun row => length row = S (String.length from)) edit_matrix /\
    Forall (fun rc => 0 <= fst rc <= Z.of_nat (String.length to) /\
                      0 <= snd rc <= Z.of_nat (String.length from))
      (MinEdit.replay_reads fuel edit_matrix (str_length from) (str_length to)).
Proof.
  intros Hf Ht.
  destruct (min_build_grid from to costs Hf Ht) as (mx & Hb & Hg).
  destruct (grid_dims _ _ _ _ Hg) as [Hlen Hrows].
  exists mx. split; [exact Hb|]. split; [exact Hlen|]. split; [exact Hrows|].
  rewrite !str_length_fits by assumption.
  apply (replay_reads_in_grid from to costs); auto.
Qed.

Lemma X2_witness :
  exists edit_matrix,
    MinEdit.build_matrix "ab" "b" MinEdit.std_edit_costs = Ret edit_matrix /\
    length edit_matrix = S (String.length "b") /\
    Forall (fun row => length row = S (String.length "ab")) edit_matrix /\
    Forall (fun rc => 0 <= fst rc <= Z.of_nat (String.length "b") /\
                      0 <= snd rc <= Z.of_nat (String.length "ab"))
      (MinEdit.replay_reads 7 edit_matrix (str_length "ab") (str_length "b")).
Proof.
  apply (X2_min_replay_stays_in_matrix "ab" "b" MinEdit.std_edit_costs 7).
  - unfold fits. vm_compute. reflexivity.
  - unfold fits. vm_compute. reflexivity.
Defined.

(** X3.  The edits the first version returns turn [from] into [to]: the
    [from_ch] of the edits that are not INSERTs spell [from], the [to_ch]
    of the edits that are not DELETEs spell [to], every SKIP carries twice
    the same symbol and every REPLACE two different symbols. *)
Theorem X3_min_returns_script from to costs (fuel : nat) :
  fits from -> fits to ->
  (String.length from + String.length to <= fuel)%nat ->
  exists edits,
    MinEdit.compute_optimal_edits fuel from to costs = Ret edits /\
    is_script edits from to.
Proof.
  intros Hf Ht Hfuel.
  destruct (min_build_grid from to costs Hf Ht) as (mx & Hb & Hg).
  destruct (replay_script from to costs mx fuel (String.length to)
              (String.length from) [] Hf Ht Hg) as (l & Hrun & Hfs & Hts & Hall);
    try lia.
  exists l. split.
  - unfold MinEdit.compute_optimal_edits. rewrite Hb, bind_Ret.
    rewrite !str_length_fits by assumption. rewrite app_nil_r in Hrun. exact Hrun.
  - unfold is_script. rewrite Hfs, Hts.
    rewrite <- (length_list_ascii from) at 1. rewrite <- (length_list_ascii to) at 1.
    rewrite !firstn_all. auto.
Qed.

Lemma X3_witness :
  exists edits,
    MinEdit.compute_optimal_edits 13 "kitten" "sitting" MinEdit.std_edit_costs
    = Ret edits /\
    is_script edits "kitten" "sitting".
Proof.
  apply (X3_min_returns_script "kitten" "sitting" MinEdit.std_edit_costs 13).
  - unfold fits. vm_compute. reflexivity.
  - unfold fits. vm_compute. reflexivity.
  - simpl. lia.
Defined.

(** ** An empty string on one side *)

(** Down the first column the replay loop returns INSERTs. *)
Lemma replay_col0 from to costs mx (i : nat) :
  fits to ->
  Engine.grid_is mx (S (String.length to)) (S (String.length from))
    (Engine.spec_cell min_engine from to costs) ->
  (i <= String.length to)%nat ->
  forall (fuel : nat) acc, (i <= fuel)%nat ->
  MinEdit.replay fuel mx 0 (Z.of_nat i) acc
  = Ret (map insert_of (take i (list_ascii_of_string to)) ++ acc).
Proof.
  intros Ht Hg. unfold fits in Ht. induction i as [|i IH]; intros Hi fuel acc Hfuel.
  - destruct fuel; reflexivity.
  - destruct fuel as [|fuel]; [lia|]. cbn [MinEdit.replay].
    replace ((0 <? 0) || (0 <? Z.of_nat (S i))) with true.
    2:{ symmetry. apply orb_true_iff. right. apply Z.ltb_lt. lia. }
    pose proof (grid_mget _ _ _ _ (S i) O Hg ltac:(lia) ltac:(lia)) as Hr.
    change (Z.of_nat 0) with 0 in Hr. rewrite Hr, bind_Ret. cbv beta zeta.
    change (MinEdit.edit (Engine.spec_cell min_engine from to costs (S i) 0))
      with (insert_of (Engine.char_at to i)).
    change (MinEdit.type (insert_of (Engine.char_at to i))) with INSERT.
    destruct (decide (INSERT <> INSERT)) as [Hx|_]; [exfalso; apply Hx; reflexivity|].
    destruct (decide (INSERT <> DELETE)) as [_|Hx]; [|exfalso; apply Hx; discriminate].
    rewrite usub_nat_S by lia.
    rewrite IH by lia.
    rewrite take_chars_S by lia.
    rewrite map_app, <- app_assoc. reflexivity.
Qed.

(** Along the first row the replay loop returns DELETEs. *)
Lemma replay_row0 from to costs mx (j : nat) :
  fits from ->
  Engine.grid_is mx (S (String.length to)) (S (String.length from))
    (Engine.spec_cell min_engine from to costs) ->
  (j <= String.length from)%nat ->
  forall (fuel : nat) acc, (j <= fuel)%nat ->
  MinEdit.replay fuel mx (Z.of_nat j) 0 acc
  = Ret (map delete_of (take j (list_ascii_of_string from)) ++ acc).
Proof.
  intros Hf Hg. unfold fits in Hf. induction j as [|j IH]; intros Hj fuel acc Hfuel.
  - destruct fuel; reflexivity.
  - destruct fuel as [|fuel]; [lia|]. cbn [MinEdit.replay].
    replace ((0 <? Z.of_nat (S j)) || (0 <? 0)) with true.
    2:{ symmetry. apply orb_true_iff. left. apply Z.ltb_lt. lia. }
    pose proof (grid_mget _ _ _ _ O (S j) Hg ltac:(lia) ltac:(lia)) as Hr.
    change (Z.of_nat 0) with 0 in Hr. rewrite Hr, bind_Ret. cbv beta zeta.
    change (MinEdit.edit (Engine.spec_cell min_engine from to costs 0 (S j)))
      with (delete_of (Engine.char_at from j)).
    change (MinEdit.type (delete_of (Engine.char_at from j))) with DELETE.
    destruct (decide (DELETE <> INSERT)) as [_|Hx]; [|exfalso; apply Hx; discriminate].
    destruct (decide (DELETE <> DELETE)) as [Hx|_]; [exfalso; apply Hx; reflexivity|].
    rewrite usub_nat_S by lia.
    rewrite IH by lia.
    rewrite take_chars_S by lia.
    rewrite map_app, <- app_assoc. reflexivity.
Qed.

Lemma total_cost_inserts costs (l : list ascii) :
  MinEdit.total_cost costs (map insert_of l)
  = umul (Z.of_nat (length l)) (cost_at costs INSERT).
Proof.
  rewrite total_cost_exact. unfold umul. f_equal.
  induction l as [|c l IH]; [reflexivity|].
  change (cost_INSERT costs + MinEdit.exact_cost costs (map insert_of l)
          = Z.of_nat (S (length l)) * cost_at costs INSERT).
  rewrite IH. simpl cost_at. lia.
Qed.

Lemma total_cost_deletes costs (l : list ascii) :
  MinEdit.total_cost costs (map delete_of l)
  = umul (Z.of_nat (length l)) (cost_at costs DELETE).
Proof.
  rewrite total_cost_exact. unfold umul. f_equal.
  induction l as [|c l IH]; [reflexivity|].
  change (cost_DELETE costs + MinEdit.exact_cost costs (map delete_of l)
          = Z.of_nat (S (length l)) * cost_at costs DELETE).
  rewrite IH. simpl cost_at. lia.
Qed.

(** X4.  With an empty [from] the first version returns one INSERT per
    symbol of [to], in order, each carrying that symbol as [to_ch] and the
    character 0 as [from_ch]; their cost sums in [unsigned] to
    [length to * costs[INSERT]].  Fuel for [length to] iterations is
    enough. *)
Theorem X4_min_empty_from to costs (fuel : nat) :
  fits to -> (String.length to <= fuel)%nat ->
  MinEdit.compute_optimal_edits fuel EmptyString to costs
  = Ret (map insert_of (list_ascii_of_string to)) /\
  MinEdit.total_cost costs (map insert_of (list_ascii_of_string to))
  = umul (Z.of_nat (String.length to)) (cost_at costs INSERT).
Proof.
  intros Ht Hfuel.
  assert (Hf : fits EmptyString) by (unfold fits; vm_compute; reflexivity).
  destruct (min_build_grid EmptyString to costs Hf Ht) as (mx & Hb & Hg).
  split.
  - unfold MinEdit.compute_optimal_edits. rewrite Hb, bind_Ret.
    rewrite (str_length_fits to) by assumption.
    change (str_length EmptyString) with 0.
    rewrite (replay_col0 EmptyString to costs mx (String.length to) Ht Hg) by lia.
    rewrite app_nil_r, <- length_list_ascii, firstn_all. reflexivity.
  - rewrite total_cost_inserts, length_list_ascii. reflexivity.
Qed.

Lemma X4_witness :
  MinEdit.compute_optimal_edits 2 EmptyString "ab" MinEdit.std_edit_costs
  = Ret (map insert_of (list_ascii_of_string "ab")) /\
  MinEdit.total_cost MinEdit.std_edit_costs (map insert_of (list_ascii_of_string "ab"))
  = umul (Z.of_nat (String.length "ab")) (cost_at MinEdit.std_edit_costs INSERT).
Proof.
  apply (X4_min_empty_from "ab" MinEdit.std_edit_costs 2).
  - unfold fits. vm_compute. reflexivity.
  - simpl. lia.
Defined.

(** X5.  With an empty [to] the first version returns one DELETE per
    symbol of [from], in order, each carrying that symbol as [from_ch] and
    the character 0 as [to_ch]; their cost sums in [unsigned] to
    [length from * costs[DELETE]]. *)
Theorem X5_min_empty_to from costs (fuel : nat) :
  fits from -> (String.length from <= fuel)%nat ->
  MinEdit.compute_optimal_edits fuel from EmptyString costs
  = Ret (map delete_of (list_ascii_of_string from)) /\
  MinEdit.total_cost costs (map delete_of (list_ascii_of_string from))
  = umul (Z.of_nat (String.length from)) (cost_at costs DELETE).
Proof.
  intros Hf Hfuel.
  assert (Ht : fits EmptyString) by (unfold fits; vm_compute; reflexivity).
  destruct (min_build_grid from EmptyString costs Hf Ht) as (mx & Hb & Hg).
  split.
  - unfold MinEdit.compute_optimal_edits. rewrite Hb, bind_Ret.
    rewrite (str_length_fits from) by assumption.
    change (str_length EmptyString) with 0.
    rewrite (replay_row0 from EmptyString costs mx (String.length from) Hf Hg) by lia.
    rewrite app_nil_r, <- length_list_ascii, firstn_all. reflexivity.
  - rewrite total_cost_deletes, length_list_ascii. reflexivity.
Qed.

Lemma X5_witness :
  MinEdit.compute_optimal_edits 2 "ab" EmptyString MinEdit.std_edit_costs
  = Ret (map delete_of (list_ascii_of_string "ab")) /\
  MinEdit.total_cost MinEdit.std_edit_costs (map delete_of (list_ascii_of_string "ab"))
  = umul (Z.of_nat (String.length "ab")) (cost_at MinEdit.std_edit_costs DELETE).
Proof.
  apply (X5_min_empty_to "ab" MinEdit.std_edit_costs 2).
  - unfold fits. vm_compute. reflexivity.
  - simpl. lia.
Defined.

(** ** The returned alignment is a cheapest one *)

Lemma drop_cons_inv {A} (l : list A) (j : nat) x r :
  drop j l = x :: r -> l !! j = Some x /\ r = drop (S j) l /\ (j < length l)%nat.
Proof.
  intros H.
  assert (Hx : l !! j = Some x).
  { pose proof (lookup_drop l j 0) as Hl. rewrite H, Nat.add_0_r in Hl.
    simpl in Hl. symmetry. exact Hl. }
  split; [exact Hx|]. split.
  - rewrite (drop_S l x j Hx) in H. injection H as <-. reflexivity.
  - eapply lookup_lt_Some. exact Hx.
Qed.

Lemma drop_chars_inv s (j : nat) x r :
  drop j (list_ascii_of_string s) = x :: r ->
  Engine.char_at s j = x /\ r = drop (S j) (list_ascii_of_string s) /\
  (j < String.length s)%nat.
Proof.
  intros H. destruct (drop_cons_inv _ _ _ _ H) as (Hx & Hr & Hlt).
  rewrite lookup_list_ascii in Hx. rewrite length_list_ascii in Hlt.
  split; [apply string_get_char_at; exact Hx|]. auto.
Qed.

Section MinOptimal.
Context (from to : string) (costs : EditCosts) (C : Z).

Local Abbreviation spec := (Engine.spec_cell min_engine from to costs).
Local Abbreviation m := (String.length from).
Local Abbreviation n := (String.length to).

(** Without wrap the candidate costs of the recurrence are plain sums. *)
Lemma uadd_spec_exact (i j : nat) t :
  no_wrap from to costs C ->
  (i <= n)%nat -> (j <= m)%nat -> (S (i + j) <= n + m)%nat ->
  uadd (MinEdit.cost (spec i j)) (cost_at costs t)
  = MinEdit.cost (spec i j) + cost_at costs t.
Proof.
  intros Hw Hi Hj Hs.
  pose proof (spec_cost_bound min_engine from to costs C i j Hw Hi Hj) as Hb.
  change (node_cost min_engine) with MinEdit.cost in Hb.
  destruct Hw as [Hc Hwr]. specialize (Hc t).
  apply uadd_small. nia.
Qed.

Lemma min_row0_exact (j : nat) :
  no_wrap from to costs C -> (j <= m)%nat ->
  MinEdit.cost (spec O j) = Z.of_nat j * cost_at costs DELETE.
Proof.
  intros [Hc Hwr] Hj.
  pose proof (spec_row0_cost min_engine from to costs j) as H.
  change (node_cost min_engine) with MinEdit.cost in H. rewrite H.
  apply umul_small. specialize (Hc DELETE). nia.
Qed.

Lemma min_col0_exact (i : nat) :
  no_wrap from to costs C -> (i <= n)%nat ->
  MinEdit.cost (spec i O) = Z.of_nat i * cost_at costs INSERT.
Proof.
  intros [Hc Hwr] Hi.
  pose proof (spec_col0_cost min_engine from to costs i) as H.
  change (node_cost min_engine) with MinEdit.cost in H. rewrite H.
  apply umul_small. specialize (Hc INSERT). nia.
Qed.

(** The cost of an interior cell, without wrap. *)
Lemma min_inner_exact (i j : nat) :
  no_wrap from to costs C -> (S i <= n)%nat -> (S j <= m)%nat ->
  MinEdit.cost (spec (S i) (S j))
  = Z.min (MinEdit.cost (spec i (S j)) + cost_at costs INSERT)
      (Z.min (MinEdit.cost (spec (S i) j) + cost_at costs DELETE)
         (MinEdit.cost (spec i j)
          + cost_at costs (if Ascii.eqb (Engine.char_at from j) (Engine.char_at to i)
                           then SKIP else REPLACE))).
Proof.
  intros Hw Hi Hj.
  rewrite (spec_inner min_engine from to costs i j). cbv zeta.
  change (MinEdit.cost (cell_node min_engine ?t ?f ?c ?k)) with k.
  change (better min_engine) with Z.ltb.
  change (node_cost min_engine) with MinEdit.cost.
  rewrite choose_edit_min, !uadd_spec_exact by (assumption || lia).
  reflexivity.
Qed.

Lemma min_step_ins (i j : nat) :
  no_wrap from to costs C -> (S i <= n)%nat -> (j <= m)%nat ->
  MinEdit.cost (spec (S i) j) <= MinEdit.cost (spec i j) + cost_at costs INSERT.
Proof.
  intros Hw Hi Hj. destruct j as [|j].
  - rewrite !min_col0_exact by (assumption || lia). lia.
  - rewrite min_inner_exact by assumption. lia.
Qed.

Lemma min_step_del (i j : nat) :
  no_wrap from to costs C -> (i <= n)%nat -> (S j <= m)%nat ->
  MinEdit.cost (spec i (S j)) <= MinEdit.cost (spec i j) + cost_at costs DELETE.
Proof.
  intros Hw Hi Hj. destruct i as [|i].
  - rewrite !min_row0_exact by (assumption || lia). lia.
  - rewrite min_inner_exact by assumption. lia.
Qed.

Lemma min_step_rep (i j : nat) :
  no_wrap from to costs C -> (S i <= n)%nat -> (S j <= m)%nat ->
  MinEdit.cost (spec (S i) (S j))
  <= MinEdit.cost (spec i j)
     + cost_at costs (if Ascii.eqb (Engine.char_at from j) (Engine.char_at to i)
                      then SKIP else REPLACE).
Proof. intros Hw Hi Hj. rewrite min_inner_exact by assumption. lia. Qed.

(** A script for what is left of [from] and [to] after the cell [(i, j)]
    costs at least the difference between the terminal cell and this
    cell. *)
Lemma script_lower_bound (l : list MinEdit.Edit) :
  no_wrap from to costs C ->
  forall (i j : nat), (i <= n)%nat -> (j <= m)%nat ->
  from_symbols l = drop j (list_ascii_of_string from) ->
  to_symbols l = drop i (list_ascii_of_string to) ->
  Forall well_typed l ->
  MinEdit.cost (spec n m) <= MinEdit.cost (spec i j) + MinEdit.exact_cost costs l.
Proof.
  intros Hw. induction l as [|e l IH]; intros i j Hi Hj Hfs Hts Hall.
  - assert (Hj' : j = m).
    { apply (f_equal length) in Hfs. rewrite length_drop, length_list_ascii in Hfs.
      simpl in Hfs. lia. }
    assert (Hi' : i = n).
    { apply (f_equal length) in Hts. rewrite length_drop, length_list_ascii in Hts.
      simpl in Hts. lia. }
    subst. simpl. lia.
  - apply Forall_cons in Hall. destruct Hall as [[Hsk Hrp] Hall].
    change (MinEdit.exact_cost costs (e :: l))
      with (cost_at costs (MinEdit.type e) + MinEdit.exact_cost costs l).
    unfold from_symbols in Hfs. unfold to_symbols in Hts.
    rewrite filter_cons in Hfs. rewrite filter_cons in Hts.
    fold (from_symbols l) in Hfs. fold (to_symbols l) in Hts.
    destruct (MinEdit.type e) eqn:Ht.
    + (* SKIP *)
      destruct (decide (SKIP <> INSERT)) as [_|Hx]; [|exfalso; apply Hx; discriminate].
      destruct (decide (SKIP <> DELETE)) as [_|Hx]; [|exfalso; apply Hx; discriminate].
      simpl in Hfs, Hts. fold (from_symbols l) in Hfs. fold (to_symbols l) in Hts.
      symmetry in Hfs, Hts.
      destruct (drop_chars_inv _ _ _ _ Hfs) as (Hfc & Hfr & Hjl).
      destruct (drop_chars_inv _ _ _ _ Hts) as (Htc & Htr & Hil).
      specialize (IH (S i) (S j) ltac:(lia) ltac:(lia) Hfr Htr Hall).
      pose proof (min_step_rep i j Hw ltac:(lia) ltac:(lia)) as Hstep.
      rewrite Hfc, Htc, (Hsk eq_refl), Ascii.eqb_refl in Hstep. lia.
    + (* DELETE *)
      destruct (decide (DELETE <> INSERT)) as [_|Hx]; [|exfalso; apply Hx; discriminate].
      destruct (decide (DELETE <> DELETE)) as [Hx|_]; [exfalso; apply Hx; reflexivity|].
      simpl in Hfs. fold (from_symbols l) in Hfs. symmetry in Hfs.
      destruct (drop_chars_inv _ _ _ _ Hfs) as (Hfc & Hfr & Hjl).
      specialize (IH i (S j) ltac:(lia) ltac:(lia) Hfr Hts Hall).
      pose proof (min_step_del i j Hw ltac:(lia) ltac:(lia)) as Hstep. lia.
    + (* INSERT *)
      destruct (decide (INSERT <> INSERT)) as [Hx|_]; [exfalso; apply Hx; reflexivity|].
      destruct (decide (INSERT <> DELETE)) as [_|Hx]; [|exfalso; apply Hx; discriminate].
      simpl in Hts. fold (to_symbols l) in Hts. symmetry in Hts.
      destruct (drop_chars_inv _ _ _ _ Hts) as (Htc & Htr & Hil).
      specialize (IH (S i) j ltac:(lia) ltac:(lia) Hfs Htr Hall).
      pose proof (min_step_ins i j Hw ltac:(lia) ltac:(lia)) as Hstep. lia.
    + (* REPLACE *)
      destruct (decide (REPLACE <> INSERT)) as [_|Hx]; [|exfalso; apply Hx; discriminate].
      destruct (decide (REPLACE <> DELETE)) as [_|Hx]; [|exfalso; apply Hx; discriminate].
      simpl in Hfs, Hts. fold (from_symbols l) in Hfs. fold (to_symbols l) in Hts.
      symmetry in Hfs, Hts.
      destruct (drop_chars_inv _ _ _ _ Hfs) as (Hfc & Hfr & Hjl).
      destruct (drop_chars_inv _ _ _ _ Hts) as (Htc & Htr & Hil).
      specialize (IH (S i) (S j) ltac:(lia) ltac:(lia) Hfr Htr Hall).
      pose proof (min_step_rep i j Hw ltac:(lia) ltac:(lia)) as Hstep.
      rewrite Hfc, Htc in Hstep.
      destruct (Ascii.eqb_spec (MinEdit.from_ch e) (MinEdit.to_ch e)) as [Heq|_].
      * exfalso. apply (Hrp eq_refl). exact Heq.
      * lia.
Qed.

(** Deleting all of [from] and inserting all of [to] bounds every cell. *)
Lemma min_cost_upper (i j : nat) :
  no_wrap from to costs C -> (i <= n)%nat -> (j <= m)%nat ->
  MinEdit.cost (spec i j)
  <= Z.of_nat j * cost_at costs DELETE + Z.of_nat i * cost_at costs INSERT.
Proof.
  intros Hw. induction i as [|i IH]; intros Hi Hj.
  - rewrite min_row0_exact by assumption. lia.
  - pose proof (min_step_ins i j Hw Hi Hj) as Hstep.
    specialize (IH ltac:(lia) Hj). lia.
Qed.

End MinOptimal.

Lemma min_compute_script from to costs (fuel : nat) :
  fits from -> fits to ->
  (String.length from + String.length to <= fuel)%nat ->
  exists edits,
    MinEdit.compute_optimal_edits fuel from to costs = Ret edits /\
    is_script edits from to.
Proof.
  intros Hf Ht Hfuel.
  destruct (min_build_grid from to costs Hf Ht) as (mx & Hb & Hg).
  destruct (replay_script from to costs mx fuel (String.length to)
              (String.length from) [] Hf Ht Hg) as (l & Hrun & Hfs & Hts & Hall);
    try lia.
  exists l. split.
  - unfold MinEdit.compute_optimal_edits. rewrite Hb, bind_Ret.
    rewrite !str_length_fits by assumption. rewrite app_nil_r in Hrun. exact Hrun.
  - unfold is_script. rewrite Hfs, Hts.
    rewrite <- (length_list_ascii from) at 1. rewrite <- (length_list_ascii to) at 1.
    rewrite !firstn_all. auto.
Qed.

(** X6.  Let the costs lie between 0 and [C] with
    [(length from + length to) * C] below [2^32].  Then the alignment the
    first version returns is a cheapest edit script from [from] to [to]:
    no list of edits that turns [from] into [to] has a smaller sum of
    configured costs.  It costs at most what deleting every symbol of
    [from] and inserting every symbol of [to] costs. *)
Theorem X6_min_returns_cheapest_script from to costs (C : Z) (fuel : nat) :
  fits from -> fits to ->
  (String.length from + String.length to <= fuel)%nat ->
  no_wrap from to costs C ->
  exists edits,
    MinEdit.compute_optimal_edits fuel from to costs = Ret edits /\
    is_script edits from to /\
    (forall other, is_script other from to ->
       MinEdit.exact_cost costs edits <= MinEdit.exact_cost costs other) /\
    MinEdit.exact_cost costs edits
    <= Z.of_nat (String.length from) * cost_at costs DELETE
       + Z.of_nat (String.length to) * cost_at costs INSERT.
Proof.
  intros Hf Ht Hfuel Hw.
  destruct (min_total_no_wrap from to costs C fuel Hf Ht Hfuel Hw)
    as (edits & Hrun & Hcost & Hex).
  destruct (min_compute_script from to costs fuel Hf Ht Hfuel)
    as (edits' & Hrun' & Hscript).
  rewrite Hrun in Hrun'. injection Hrun' as <-.
  exists edits. split; [exact Hrun|]. split; [exact Hscript|].
  rewrite Hex, Hcost. split.
  - intros other (Hfs & Hts & Hall).
    pose proof (script_lower_bound from to costs C other Hw O O
                  ltac:(lia) ltac:(lia) Hfs Hts Hall) as Hlb.
    change (MinEdit.cost (Engine.spec_cell min_engine from to costs 0 0)) with 0 in Hlb.
    lia.
  - apply (min_cost_upper from to costs C); auto.
Qed.

Lemma X6_witness :
  exists edits,
    MinEdit.compute_optimal_edits 13 "kitten" "sitting" MinEdit.std_edit_costs
    = Ret edits /\
    is_script edits "kitten" "sitting" /\
    (forall other, is_script other "kitten" "sitting" ->
       MinEdit.exact_cost MinEdit.std_edit_costs edits
       <= MinEdit.exact_cost MinEdit.std_edit_costs other) /\
    MinEdit.exact_cost MinEdit.std_edit_costs edits
    <= Z.of_nat (String.length "kitten") * cost_at MinEdit.std_edit_costs DELETE
       + Z.of_nat (String.length "sitting") * cost_at MinEdit.std_edit_costs INSERT.
Proof.
  apply (X6_min_returns_cheapest_script "kitten" "sitting" MinEdit.std_edit_costs 15 13).
  - unfold fits. vm_compute. reflexivity.
  - unfold fits. vm_compute. reflexivity.
  - simpl. lia.
  - split.
    + intros t. destruct t; simpl; lia.
    + vm_compute. reflexivity.
Defined.

(** ** The finished matrix satisfies the recurrence *)

Lemma choose_edit_snd (better : Z -> Z -> bool) ins del rep rt :
  snd (Engine.choose_edit better ins del rep rt) = INSERT \/
  snd (Engine.choose_edit better ins del rep rt) = DELETE \/
  snd (Engine.choose_edit better ins del rep rt) = rt.
Proof.
  destruct (choose_edit_cases better ins del rep rt) as [-> | [-> | ->]]; auto.
Qed.

(** In the finished matrix of an engine, an interior cell is the node the
    recurrence makes of its three neighbours. *)
Lemma engine_recurrence {N} (e : engine N) from to costs (i j : nat) fc tc :
  fits from -> fits to ->
  String.get j from = Some fc -> String.get i to = Some tc ->
  exists final,
    Engine.build_matrix e from to costs = Ret final /\
    exists up left diag,
      mget final (Z.of_nat i) (Z.of_nat j + 1) = Ret up /\
      mget final (Z.of_nat i + 1) (Z.of_nat j) = Ret left /\
      mget final (Z.of_nat i) (Z.of_nat j) = Ret diag /\
      mget final (Z.of_nat i + 1) (Z.of_nat j + 1)
      = Ret (let rep_type := if Ascii.eqb fc tc then SKIP else REPLACE in
             let chosen :=
               Engine.choose_edit (better e)
                 (uadd (node_cost e up) (cost_at costs INSERT))
                 (uadd (node_cost e left) (cost_at costs DELETE))
                 (uadd (node_cost e diag) (cost_at costs rep_type)) rep_type in
             cell_node e (snd chosen) fc tc (fst chosen)).
Proof.
  intros Hf Ht Hfc Htc.
  pose proof (string_get_lt _ _ _ Hfc) as Hj.
  pose proof (string_get_lt _ _ _ Htc) as Hi.
  destruct (build_matrix_grid e from to costs Hf Ht) as (final & Hb & Hg).
  exists final. split; [exact Hb|].
  exists (Engine.spec_cell e from to costs i (S j)),
    (Engine.spec_cell e from to costs (S i) j),
    (Engine.spec_cell e from to costs i j).
  replace (Z.of_nat i + 1) with (Z.of_nat (S i)) by lia.
  replace (Z.of_nat j + 1) with (Z.of_nat (S j)) by lia.
  rewrite !(grid_mget _ _ _ _ _ _ Hg) by lia.
  rewrite (spec_inner e from to costs i j).
  rewrite (string_get_char_at _ _ _ Hfc), (string_get_char_at _ _ _ Htc).
  auto.
Qed.

(** X7.  In the matrix either version has built, every cell [(i + 1, j + 1)]
    holds the best of the three candidates made from the finished cells
    above, to the left and on the diagonal: its cost is the least (first
    version) or the greatest (second version) of the cost above plus
    [costs[INSERT]], the cost to the left plus [costs[DELETE]] and the
    diagonal cost plus the cost of SKIP or REPLACE, each sum taken in
    [unsigned]; its type is INSERT, DELETE or, by the equality of
    [from[j]] and [to[i]], SKIP or REPLACE; it carries [from[j]] and
    [to[i]] in the first version and [to[i]] in the second. *)
Theorem X7_finished_matrix_recurrence from to costs (i j : nat) fc tc :
  fits from -> fits to ->
  String.get j from = Some fc -> String.get i to = Some tc ->
  (exists final up left diag cell,
      MinEdit.build_matrix from to costs = Ret final /\
      mget final (Z.of_nat i) (Z.of_nat j + 1) = Ret up /\
      mget final (Z.of_nat i + 1) (Z.of_nat j) = Ret left /\
      mget final (Z.of_nat i) (Z.of_nat j) = Ret diag /\
      mget final (Z.of_nat i + 1) (Z.of_nat j + 1) = Ret cell /\
      MinEdit.cost cell
      = Z.min (uadd (MinEdit.cost up) (cost_at costs INSERT))
          (Z.min (uadd (MinEdit.cost left) (cost_at costs DELETE))
             (uadd (MinEdit.cost diag)
                (cost_at costs (if Ascii.eqb fc tc then SKIP else REPLACE)))) /\
      (MinEdit.type (MinEdit.edit cell) = INSERT \/
       MinEdit.type (MinEdit.edit cell) = DELETE \/
       MinEdit.type (MinEdit.edit cell) = if Ascii.eqb fc tc then SKIP else REPLACE) /\
      MinEdit.from_ch (MinEdit.edit cell) = fc /\
      MinEdit.to_ch (MinEdit.edit cell) = tc) /\
  (exists final up left diag cell,
      MaxEdit.build_matrix from to costs = Ret final /\
      mget final (Z.of_nat i) (Z.of_nat j + 1) = Ret up /\
      mget final (Z.of_nat i + 1) (Z.of_nat j) = Ret left /\
      mget final (Z.of_nat i) (Z.of_nat j) = Ret diag /\
      mget final (Z.of_nat i + 1) (Z.of_nat j + 1) = Ret cell /\
      MaxEdit.cost cell
      = Z.max (uadd (MaxEdit.cost up) (cost_at costs INSERT))
          (Z.max (uadd (MaxEdit.cost left) (cost_at costs DELETE))
             (uadd (MaxEdit.cost diag)
                (cost_at costs (if Ascii.eqb fc tc then SKIP else REPLACE)))) /\
      (MaxEdit.type (MaxEdit.edit cell) = INSERT \/
       MaxEdit.type (MaxEdit.edit cell) = DELETE \/
       MaxEdit.type (MaxEdit.edit cell) = if Ascii.eqb fc tc then SKIP else REPLACE) /\
      MaxEdit.ch (MaxEdit.edit cell) = tc).
Proof.
  intros Hf Ht Hfc Htc. split.
  - destruct (engine_recurrence min_engine from to costs i j fc tc Hf Ht Hfc Htc)
      as (final & Hb & up & left & diag & Hu & Hl & Hd & Hc).
    rewrite <- min_build_matrix in Hb.
    eexists final, up, left, diag, _.
    split; [exact Hb|]. split; [exact Hu|]. split; [exact Hl|]. split; [exact Hd|].
    split; [exact Hc|]. cbv zeta.
    change (MinEdit.cost (cell_node min_engine ?t ?f ?c ?k)) with k.
    change (MinEdit.edit (cell_node min_engine ?t ?f ?c ?k)) with (MinEdit.mkEdit t f c).
    cbn [MinEdit.type MinEdit.from_ch MinEdit.to_ch].
    change (better min_engine) with Z.ltb.
    split; [apply choose_edit_min|]. split; [apply choose_edit_snd|]. auto.
  - destruct (engine_recurrence max_engine from to costs i j fc tc Hf Ht Hfc Htc)
      as (final & Hb & up & left & diag & Hu & Hl & Hd & Hc).
    rewrite <- max_build_matrix in Hb.
    eexists final, up, left, diag, _.
    split; [exact Hb|]. split; [exact Hu|]. split; [exact Hl|]. split; [exact Hd|].
    split; [exact Hc|]. cbv zeta.
    change (MaxEdit.cost (cell_node max_engine ?t ?f ?c ?k)) with k.
    change (MaxEdit.edit (cell_node max_engine ?t ?f ?c ?k)) with (MaxEdit.mkEdit t c).
    cbn [MaxEdit.type MaxEdit.ch].
    change (better max_engine) with Z.gtb.
    split; [apply choose_edit_max|]. split; [apply choose_edit_snd|]. reflexivity.
Qed.

Lemma X7_witness :
  (exists final up left diag cell,
      MinEdit.build_matrix "ab" "b" MinEdit.std_edit_costs = Ret final /\
      mget final (Z.of_nat 0) (Z.of_nat 1 + 1) = Ret up /\
      mget final (Z.of_nat 0 + 1) (Z.of_nat 1) = Ret left /\
      mget final (Z.of_nat 0) (Z.of_nat 1) = Ret diag /\
      mget final (Z.of_nat 0 + 1) (Z.of_nat 1 + 1) = Ret cell /\
      MinEdit.cost cell
      = Z.min (uadd (MinEdit.cost up) (cost_at MinEdit.std_edit_costs INSERT))
          (Z.min (uadd (MinEdit.cost left) (cost_at MinEdit.std_edit_costs DELETE))
             (uadd (MinEdit.cost diag)
                (cost_at MinEdit.std_edit_costs
                   (if Ascii.eqb "b" "b" then SKIP else REPLACE)))) /\
      (MinEdit.type (MinEdit.edit cell) = INSERT \/
       MinEdit.type (MinEdit.edit cell) = DELETE \/
       MinEdit.type (MinEdit.edit cell) = if Ascii.eqb "b" "b" then SKIP else REPLACE) /\
      MinEdit.from_ch (MinEdit.edit cell) = "b"%char /\
      MinEdit.to_ch (MinEdit.edit cell) = "b"%char) /\
  (exists final up left diag cell,
      MaxEdit.build_matrix "ab" "b" MinEdit.std_edit_costs = Ret final /\
      mget final (Z.of_nat 0) (Z.of_nat 1 + 1) = Ret up /\
      mget final (Z.of_nat 0 + 1) (Z.of_nat 1) = Ret left /\
      mget final (Z.of_nat 0) (Z.of_nat 1) = Ret diag /\
      mget final (Z.of_nat 0 + 1) (Z.of_nat 1 + 1) = Ret cell /\
      MaxEdit.cost cell
      = Z.max (uadd (MaxEdit.cost up) (cost_at MinEdit.std_edit_costs INSERT))
          (Z.max (uadd (MaxEdit.cost left) (cost_at MinEdit.std_edit_costs DELETE))
             (uadd (MaxEdit.cost diag)
                (cost_at MinEdit.std_edit_costs
                   (if Ascii.eqb "b" "b" then SKIP else REPLACE)))) /\
      (MaxEdit.type (MaxEdit.edit cell) = INSERT \/
       MaxEdit.type (MaxEdit.edit cell) = DELETE \/
       MaxEdit.type (MaxEdit.edit cell) = if Ascii.eqb "b" "b" then SKIP else REPLACE) /\
      MaxEdit.ch (MaxEdit.edit cell) = "b"%char).
Proof.
  apply (X7_finished_matrix_recurrence "ab" "b" MinEdit.std_edit_costs 0 1 "b" "b").
  - unfold fits. vm_compute. reflexivity.
  - unfold fits. vm_compute. reflexivity.
  - reflexivity.
  - reflexivity.
Defined.

(** ** Exchanging the two strings *)

Lemma cost_at_swap_rep costs (c d : ascii) :
  cost_at (swap_costs costs) (if Ascii.eqb d c then SKIP else REPLACE)
  = cost_at costs (if Ascii.eqb c d then SKIP else REPLACE).
Proof. rewrite (Ascii.eqb_sym d c). destruct (Ascii.eqb c d); reflexivity. Qed.

(** The matrix of [to] against [from] under the exchanged costs is the
    transpose of the matrix of [from] against [to], as far as costs go. *)
Lemma min_cost_transpose from to costs (i j : nat) :
  MinEdit.cost (Engine.spec_cell min_engine from to costs i j)
  = MinEdit.cost (Engine.spec_cell min_engine to from (swap_costs costs) j i).
Proof.
  revert j. induction i as [|i IHi]; intros j.
  - pose proof (spec_row0_cost min_engine from to costs j) as H1.
    pose proof (spec_col0_cost min_engine to from (swap_costs costs) j) as H2.
    change (node_cost min_engine) with MinEdit.cost in H1, H2.
    rewrite H1, H2. reflexivity.
  - induction j as [|j IHj].
    + pose proof (spec_col0_cost min_engine from to costs (S i)) as H1.
      pose proof (spec_row0_cost min_engine to from (swap_costs costs) (S i)) as H2.
      change (node_cost min_engine) with MinEdit.cost in H1, H2.
      rewrite H1, H2. reflexivity.
    + rewrite (spec_inner min_engine from to costs i j).
      rewrite (spec_inner min_engine to from (swap_costs costs) j i).
      cbv zeta.
      change (MinEdit.cost (cell_node min_engine ?t ?f ?c ?k)) with k.
      change (better min_engine) with Z.ltb.
      change (node_cost min_engine) with MinEdit.cost.
      rewrite !choose_edit_min.
      rewrite <- (IHi (S j)), <- IHj, <- (IHi j), cost_at_swap_rep.
      change (cost_at (swap_costs costs) INSERT) with (cost_at costs DELETE).
      change (cost_at (swap_costs costs) DELETE) with (cost_at costs INSERT).
      lia.
Qed.

(** X8.  Aligning [to] with [from] under the costs with DELETE and INSERT
    exchanged costs as much as aligning [from] with [to]: the two
    alignments the first version returns have the same total cost (summed
    in [unsigned]). *)
Theorem X8_min_cost_symmetric from to costs (fuel : nat) :
  fits from -> fits to ->
  (String.length from + String.length to <= fuel)%nat ->
  exists edits edits',
    MinEdit.compute_optimal_edits fuel from to costs = Ret edits /\
    MinEdit.compute_optimal_edits fuel to from (swap_costs costs) = Ret edits' /\
    MinEdit.total_cost costs edits = MinEdit.total_cost (swap_costs costs) edits'.
Proof.
  intros Hf Ht Hfuel.
  destruct (min_compute_spec from to costs fuel Hf Ht Hfuel)
    as (mx & edits & _ & _ & Hrun & _ & _ & Hcost).
  destruct (min_compute_spec to from (swap_costs costs) fuel Ht Hf ltac:(lia))
    as (mx' & edits' & _ & _ & Hrun' & _ & _ & Hcost').
  exists edits, edits'. split; [exact Hrun|]. split; [exact Hrun'|].
  rewrite Hcost, Hcost'. apply min_cost_transpose.
Qed.

Lemma X8_witness :
  exists edits edits',
    MinEdit.compute_optimal_edits 13 "kitten" "sitting" MinEdit.std_edit_costs
    = Ret edits /\
    MinEdit.compute_optimal_edits 13 "sitting" "kitten"
      (swap_costs MinEdit.std_edit_costs) = Ret edits' /\
    MinEdit.total_cost MinEdit.std_edit_costs edits
    = MinEdit.total_cost (swap_costs MinEdit.std_edit_costs) edits'.
Proof.
  apply (X8_min_cost_symmetric "kitten" "sitting" MinEdit.std_edit_costs 13).
  - unfold fits. vm_compute. reflexivity.
  - unfold fits. vm_compute. reflexivity.
  - simpl. lia.
Defined.

(** ** The second version as a whole *)

(** X9.  On two empty strings the second version returns the empty
    alignment.  On any other pair of strings shorter than [2^32 - 1] its
    matrix has [length to + 1] rows of [length from + 1] nodes and the
    first read of its replay loop is the cell
    [(length to + 1, length from + 1)], one row below the matrix: the call
    has undefined behaviour whatever the costs, and so has [main]. *)
Theorem X9_max_defined_on_empty_strings_only from to costs (fuel : nat) prog :
  fits from -> fits to ->
  (0 < String.length from + String.length to)%nat ->
  (exists edit_matrix,
      MaxEdit.build_matrix from to costs = Ret edit_matrix /\
      length edit_matrix = S (String.length to) /\
      Forall (fun row => length row = S (String.length from)) edit_matrix /\
      MaxEdit.replay_reads (S fuel) edit_matrix (str_length from) (str_length to)
      = [(Z.of_nat (String.length to) + 1, Z.of_nat (String.length from) + 1)]) /\
  MaxEdit.compute_optimal_edits (S fuel) from to costs = Undef /\
  MaxEdit.main (S fuel) [prog; from; to] = Undef /\
  (forall fuel' costs',
      MaxEdit.compute_optimal_edits fuel' EmptyString EmptyString costs' = Ret []).
Proof.
  intros Hf Ht Hpos. split; [|split; [|split]].
  - destruct (max_build_grid from to costs Hf Ht) as (mx & Hb & Hg).
    destruct (grid_dims _ _ _ _ Hg) as [Hlen Hrows].
    exists mx. split; [exact Hb|]. split; [exact Hlen|]. split; [exact Hrows|].
    rewrite !str_length_fits by assumption. cbn [MaxEdit.replay_reads].
    replace ((0 <? Z.of_nat (String.length from)) || (0 <? Z.of_nat (String.length to)))
      with true.
    2:{ symmetry. apply orb_true_iff.
        destruct (Z.ltb_spec 0 (Z.of_nat (String.length from))); [auto|].
        right. apply Z.ltb_lt. lia. }
    unfold fits in Hf, Ht.
    rewrite (uadd_nat_S (String.length to)) by lia.
    rewrite (uadd_nat_S (String.length from)) by lia.
    rewrite (grid_mget_row_out _ _ _ _ (S (String.length to)) _ Hg) by lia.
    f_equal. f_equal; lia.
  - apply max_replay_undef; assumption.
  - unfold MaxEdit.main. simpl.
    rewrite (max_replay_undef from to MaxEdit.std_edit_costs fuel Hf Ht Hpos).
    reflexivity.
  - intros fuel' costs'. destruct fuel'; reflexivity.
Qed.

Lemma X9_witness :
  (exists edit_matrix,
      MaxEdit.build_matrix "ab" "a" MaxEdit.std_edit_costs = Ret edit_matrix /\
      length edit_matrix = S (String.length "a") /\
      Forall (fun row => length row = S (String.length "ab")) edit_matrix /\
      MaxEdit.replay_reads (S 5) edit_matrix (str_length "ab") (str_length "a")
      = [(Z.of_nat (String.length "a") + 1, Z.of_nat (String.length "ab") + 1)]) /\
  MaxEdit.compute_optimal_edits (S 5) "ab" "a" MaxEdit.std_edit_costs = Undef /\
  MaxEdit.main (S 5) ["optedit"; "ab"; "a"]%string = Undef /\
  (forall fuel' costs',
      MaxEdit.compute_optimal_edits fuel' EmptyString EmptyString costs' = Ret []).
Proof.
  apply (X9_max_defined_on_empty_strings_only "ab" "a" MaxEdit.std_edit_costs 5
           "optedit").
  - unfold fits. vm_compute. reflexivity.
  - unfold fits. vm_compute. reflexivity.
  - simpl. lia.
Defined.

(** ** [main] *)

(** X10.  Called with a program name and any number of arguments other
    than two, [main] of either version exits with status 1, prints nothing
    on the standard output and the usage line, which names the program, on
    the standard error.  The arguments are not looked at and no alignment
    is computed, so the second version is defined here as well. *)
Theorem X10_main_usage_error prog (args : list string) (fuel : nat) :
  length args <> 2%nat ->
  MinEdit.main fuel (prog :: args) = Ret (mkProcess 1 EmptyString (usage prog)) /\
  MaxEdit.main fuel (prog :: args) = Ret (mkProcess 1 EmptyString (usage prog)).
Proof.
  intros Hlen. unfold MinEdit.main, MaxEdit.main.
  destruct (decide (length (prog :: args) <> 3%nat)) as [_|Hx].
  - split; reflexivity.
  - exfalso. apply Hx. simpl. lia.
Qed.

Lemma X10_witness :
  MinEdit.main 0 ["optedit"; "kitten"]%string
  = Ret (mkProcess 1 EmptyString (usage "optedit")) /\
  MaxEdit.main 0 ["optedit"; "kitten"]%string
  = Ret (mkProcess 1 EmptyString (usage "optedit")).
Proof.
  apply (X10_main_usage_error "optedit" ["kitten"]%string 0).
  simpl. lia.
Defined.

(** ** [edit_rep] *)

(** X11.  The text [edit_rep] makes of an edit tells the type of the edit
    and the symbols it shows: two edits with the same text have the same
    type, the same [from_ch] unless they are INSERTs, and the same [to_ch]
    if they are INSERTs or REPLACEs.  The text has 7 characters for a
    REPLACE and 5 for any other edit. *)
Theorem X11_edit_rep_tells_the_edit (e1 e2 : MinEdit.Edit) :
  (MinEdit.edit_rep e1 = MinEdit.edit_rep e2 ->
   MinEdit.type e1 = MinEdit.type e2 /\
   (MinEdit.type e1 <> INSERT -> MinEdit.from_ch e1 = MinEdit.from_ch e2) /\
   (MinEdit.type e1 = INSERT \/ MinEdit.type e1 = REPLACE ->
    MinEdit.to_ch e1 = MinEdit.to_ch e2)) /\
  String.length (MinEdit.edit_rep e1)
  = (if decide (MinEdit.type e1 = REPLACE) then 7 else 5)%nat.
Proof.
  destruct e1 as [t1 f1 c1], e2 as [t2 f2 c2]. split.
  - intros H. destruct t1, t2; cbv in H; try discriminate H;
      inversion H; subst; simpl;
      (split; [reflexivity|]);
      (split; [intros Hn; try reflexivity; exfalso; apply Hn; reflexivity
              |intros [Hx|Hx]; try discriminate Hx; reflexivity]).
  - destruct t1; reflexivity.
Qed.

(** ** What the matrix of the second version holds *)

Lemma exact_cost_snoc costs l e :
  MinEdit.exact_cost costs (l ++ [e])
  = MinEdit.exact_cost costs l + cost_at costs (MinEdit.type e).
Proof.
  induction l as [|x l IH]; simpl.
  - lia.
  - fold (MinEdit.exact_cost costs (l ++ [e])). fold (MinEdit.exact_cost costs l).
    rewrite IH. lia.
Qed.

Section EngineScripts.
Context {N : Type} (e : engine N) `{!EngineLaws e}.
Context (from to : string) (costs : EditCosts) (C : Z).

Local Abbreviation spec := (Engine.spec_cell e from to costs).
Local Abbreviation m := (String.length from).
Local Abbreviation n := (String.length to).

(** [spec_step] with the symbols: a cell of type SKIP lies past two equal
    symbols, a cell of type REPLACE past two different ones. *)
Lemma spec_step_symbols (i j : nat) :
  (i <> O \/ j <> O) ->
  exists i' j',
    (if decide (node_type e (spec i j) <> DELETE) then i = S i' else i = i') /\
    (if decide (node_type e (spec i j) <> INSERT) then j = S j' else j = j') /\
    node_cost e (spec i j)
    = uadd (node_cost e (spec i' j')) (cost_at costs (node_type e (spec i j))) /\
    (node_type e (spec i j) = SKIP ->
     Engine.char_at from j' = Engine.char_at to i') /\
    (node_type e (spec i j) = REPLACE ->
     Engine.char_at from j' <> Engine.char_at to i').
Proof.
  intros Hne. destruct i as [|i], j as [|j].
  - exfalso. destruct Hne as [H|H]; apply H; reflexivity.
  - exists O, j. pose proof (spec_row0_cost e from to costs j) as Hc.
    rewrite spec_row0, row0_type, row0_cost, Hc.
    simpl. split; [reflexivity|]. split; [reflexivity|].
    split; [apply umul_succ|]. split; intros H; discriminate H.
  - exists i, O. pose proof (spec_col0_cost e from to costs i) as Hc.
    rewrite spec_col0, col0_type, col0_cost, Hc.
    simpl. split; [reflexivity|]. split; [reflexivity|].
    split; [apply umul_succ|]. split; intros H; discriminate H.
  - rewrite spec_inner. cbv zeta. rewrite cell_type, cell_cost.
    set (fc := Engine.char_at from j). set (tc := Engine.char_at to i).
    set (rt := if Ascii.eqb fc tc then SKIP else REPLACE).
    destruct (choose_edit_cases (better e)
                (uadd (node_cost e (spec i (S j))) (cost_at costs INSERT))
                (uadd (node_cost e (spec (S i) j)) (cost_at costs DELETE))
                (uadd (node_cost e (spec i j)) (cost_at costs rt)) rt)
      as [-> | [-> | ->]]; simpl.
    + exists i, (S j). repeat split; auto; intros H; discriminate H.
    + exists (S i), j. repeat split; auto; intros H; discriminate H.
    + exists i, j. unfold rt.
      destruct (Ascii.eqb_spec fc tc) as [Heq|Hneq]; simpl;
        repeat split; auto; intros H; discriminate H.
Qed.

Lemma engine_uadd_exact (i j : nat) t :
  no_wrap from to costs C ->
  (i <= n)%nat -> (j <= m)%nat -> (S (i + j) <= n + m)%nat ->
  uadd (node_cost e (spec i j)) (cost_at costs t)
  = node_cost e (spec i j) + cost_at costs t.
Proof.
  intros Hw Hi Hj Hs.
  pose proof (spec_cost_bound e from to costs C i j Hw Hi Hj) as Hb.
  destruct Hw as [Hc Hwr]. specialize (Hc t).
  apply uadd_small. nia.
Qed.

(** Without wrap the cost of every cell is the cost of some edit script
    for the prefixes the cell stands for. *)
Lemma cell_cost_attained (k i j : nat) :
  no_wrap from to costs C ->
  (i + j = k)%nat -> (i <= n)%nat -> (j <= m)%nat ->
  exists l,
    from_symbols l = take j (list_ascii_of_string from) /\
    to_symbols l = take i (list_ascii_of_string to) /\
    Forall well_typed l /\
    MinEdit.exact_cost costs l = node_cost e (spec i j).
Proof.
  intros Hw. revert i j. induction k as [k IH] using lt_wf_ind.
  intros i j Hk Hi Hj.
  destruct (decide (i = O /\ j = O)) as [[-> ->]|Hne].
  { exists []. rewrite spec_origin, default_cost. simpl. auto. }
  assert (Hne' : i <> O \/ j <> O).
  { destruct i; [|left; discriminate]. destruct j; [|right; discriminate].
    exfalso. apply Hne. auto. }
  destruct (spec_step_symbols i j Hne') as (i' & j' & Hi' & Hj' & Hcost & Hsk & Hrp).
  set (t := node_type e (spec i j)) in *.
  assert (Hlt : (i' <= i /\ j' <= j /\ S (i' + j') <= i + j)%nat).
  { destruct (decide (t <> DELETE)) as [Hx|Hx], (decide (t <> INSERT)) as [Hy|Hy];
      subst; try lia.
    exfalso. apply dec_stable in Hx. apply dec_stable in Hy. congruence. }
  destruct (IH (i' + j')%nat ltac:(lia) i' j' eq_refl ltac:(lia) ltac:(lia))
    as (l & Hfs & Hts & Hall & Hex).
  exists (l ++ [MinEdit.mkEdit t (Engine.char_at from j') (Engine.char_at to i')]).
  rewrite from_symbols_snoc, to_symbols_snoc, exact_cost_snoc, Hfs, Hts, Hex.
  cbn [MinEdit.type MinEdit.from_ch MinEdit.to_ch].
  split; [|split; [|split]].
  - destruct (decide (t <> INSERT)) as [Hy|Hy].
    + rewrite Hj'. symmetry. apply take_chars_S. lia.
    + rewrite Hj'. apply app_nil_r.
  - destruct (decide (t <> DELETE)) as [Hx|Hx].
    + rewrite Hi'. symmetry. apply take_chars_S. lia.
    + rewrite Hi'. apply app_nil_r.
  - apply Forall_app. split; [exact Hall|].
    constructor; [|constructor]. split; simpl; assumption.
  - rewrite Hcost. symmetry. apply engine_uadd_exact; try assumption; lia.
Qed.

End EngineScripts.

Section MaxOptimal.
Context (from to : string) (costs : EditCosts) (C : Z).

Local Abbreviation spec := (Engine.spec_cell max_engine from to costs).
Local Abbreviation m := (String.length from).
Local Abbreviation n := (String.length to).

Lemma max_row0_exact (j : nat) :
  no_wrap from to costs C -> (j <= m)%nat ->
  MaxEdit.cost (spec O j) = Z.of_nat j * cost_at costs DELETE.
Proof.
  intros [Hc Hwr] Hj.
  pose proof (spec_row0_cost max_engine from to costs j) as H.
  change (node_cost max_engine) with MaxEdit.cost in H. rewrite H.
  apply umul_small. specialize (Hc DELETE). nia.
Qed.

Lemma max_col0_exact (i : nat) :
  no_wrap from to costs C -> (i <= n)%nat ->
  MaxEdit.cost (spec i O) = Z.of_nat i * cost_at costs INSERT.
Proof.
  intros [Hc Hwr] Hi.
  pose proof (spec_col0_cost max_engine from to costs i) as H.
  change (node_cost max_engine) with MaxEdit.cost in H. rewrite H.
  apply umul_small. specialize (Hc INSERT). nia.
Qed.

Lemma max_inner_exact (i j : nat) :
  no_wrap from to costs C -> (S i <= n)%nat -> (S j <= m)%nat ->
  MaxEdit.cost (spec (S i) (S j))
  = Z.max (MaxEdit.cost (spec i (S j)) + cost_at costs INSERT)
      (Z.max (MaxEdit.cost (spec (S i) j) + cost_at costs DELETE)
         (MaxEdit.cost (spec i j)
          + cost_at costs (if Ascii.eqb (Engine.char_at from j) (Engine.char_at to i)
                           then SKIP else REPLACE))).
Proof.
  intros Hw Hi Hj.
  rewrite (spec_inner max_engine from to costs i j). cbv zeta.
  change (MaxEdit.cost (cell_node max_engine ?t ?f ?c ?k)) with k.
  change (better max_engine) with Z.gtb.
  rewrite choose_edit_max.
  rewrite !(engine_uadd_exact max_engine from to costs C) by (assumption || lia).
  reflexivity.
Qed.

Lemma max_step_ins (i j : nat) :
  no_wrap from to costs C -> (S i <= n)%nat -> (j <= m)%nat ->
  MaxEdit.cost (spec i j) + cost_at costs INSERT <= MaxEdit.cost (spec (S i) j).
Proof.
  intros Hw Hi Hj. destruct j as [|j].
  - rewrite !max_col0_exact by (assumption || lia). lia.
  - rewrite max_inner_exact by assumption. lia.
Qed.

Lemma max_step_del (i j : nat) :
  no_wrap from to costs C -> (i <= n)%nat -> (S j <= m)%nat ->
  MaxEdit.cost (spec i j) + cost_at costs DELETE <= MaxEdit.cost (spec i (S j)).
Proof.
  intros Hw Hi Hj. destruct i as [|i].
  - rewrite !max_row0_exact by (assumption || lia). lia.
  - rewrite max_inner_exact by assumption. lia.
Qed.

Lemma max_step_rep (i j : nat) :
  no_wrap from to costs C -> (S i <= n)%nat -> (S j <= m)%nat ->
  MaxEdit.cost (spec i j)
  + cost_at costs (if Ascii.eqb (Engine.char_at from j) (Engine.char_at to i)
                   then SKIP else REPLACE)
  <= MaxEdit.cost (spec (S i) (S j)).
Proof. intros Hw Hi Hj. rewrite max_inner_exact by assumption. lia. Qed.

(** A script for what is left after the cell [(i, j)] costs at most the
    difference between the terminal cell and this cell. *)
Lemma script_upper_bound (l : list MinEdit.Edit) :
  no_wrap from to costs C ->
  forall (i j : nat), (i <= n)%nat -> (j <= m)%nat ->
  from_symbols l = drop j (list_ascii_of_string from) ->
  to_symbols l = drop i (list_ascii_of_string to) ->
  Forall well_typed l ->
  MaxEdit.cost (spec i j) + MinEdit.exact_cost costs l <= MaxEdit.cost (spec n m).
Proof.
  intros Hw. induction l as [|e l IH]; intros i j Hi Hj Hfs Hts Hall.
  - assert (Hj' : j = m).
    { apply (f_equal length) in Hfs. rewrite length_drop, length_list_ascii in Hfs.
      simpl in Hfs. lia. }
    assert (Hi' : i = n).
    { apply (f_equal length) in Hts. rewrite length_drop, length_list_ascii in Hts.
      simpl in Hts. lia. }
    subst. simpl. lia.
  - apply Forall_cons in Hall. destruct Hall as [[Hsk Hrp] Hall].
    change (MinEdit.exact_cost costs (e :: l))
      with (cost_at costs (MinEdit.type e) + MinEdit.exact_cost costs l).
    unfold from_symbols in Hfs. unfold to_symbols in Hts.
    rewrite filter_cons in Hfs. rewrite filter_cons in Hts.
    fold (from_symbols l) in Hfs. fold (to_symbols l) in Hts.
    destruct (MinEdit.type e) eqn:Ht.
    + destruct (decide (SKIP <> INSERT)) as [_|Hx]; [|exfalso; apply Hx; discriminate].
      destruct (decide (SKIP <> DELETE)) as [_|Hx]; [|exfalso; apply Hx; discriminate].
      simpl in Hfs, Hts. fold (from_symbols l) in Hfs. fold (to_symbols l) in Hts.
      symmetry in Hfs, Hts.
      destruct (drop_chars_inv _ _ _ _ Hfs) as (Hfc & Hfr & Hjl).
      destruct (drop_chars_inv _ _ _ _ Hts) as (Htc & Htr & Hil).
      specialize (IH (S i) (S j) ltac:(lia) ltac:(lia) Hfr Htr Hall).
      pose proof (max_step_rep i j Hw ltac:(lia) ltac:(lia)) as Hstep.
      rewrite Hfc, Htc, (Hsk eq_refl), Ascii.eqb_refl in Hstep. lia.
    + destruct (decide (DELETE <> INSERT)) as [_|Hx]; [|exfalso; apply Hx; discriminate].
      destruct (decide (DELETE <> DELETE)) as [Hx|_]; [exfalso; apply Hx; reflexivity|].
      simpl in Hfs. fold (from_symbols l) in Hfs. symmetry in Hfs.
      destruct (drop_chars_inv _ _ _ _ Hfs) as (Hfc & Hfr & Hjl).
      specialize (IH i (S j) ltac:(lia) ltac:(lia) Hfr Hts Hall).
      pose proof (max_step_del i j Hw ltac:(lia) ltac:(lia)) as Hstep. lia.
    + destruct (decide (INSERT <> INSERT)) as [Hx|_]; [exfalso; apply Hx; reflexivity|].
      destruct (decide (INSERT <> DELETE)) as [_|Hx]; [|exfalso; apply Hx; discriminate].
      simpl in Hts. fold (to_symbols l) in Hts. symmetry in Hts.
      destruct (drop_chars_inv _ _ _ _ Hts) as (Htc & Htr & Hil).
      specialize (IH (S i) j ltac:(lia) ltac:(lia) Hfs Htr Hall).
      pose proof (max_step_ins i j Hw ltac:(lia) ltac:(lia)) as Hstep. lia.
    + destruct (decide (REPLACE <> INSERT)) as [_|Hx]; [|exfalso; apply Hx; discriminate].
      destruct (decide (REPLACE <> DELETE)) as [_|Hx]; [|exfalso; apply Hx; discriminate].
      simpl in Hfs, Hts. fold (from_symbols l) in Hfs. fold (to_symbols l) in Hts.
      symmetry in Hfs, Hts.
      destruct (drop_chars_inv _ _ _ _ Hfs) as (Hfc & Hfr & Hjl).
      destruct (drop_chars_inv _ _ _ _ Hts) as (Htc & Htr & Hil).
      specialize (IH (S i) (S j) ltac:(lia) ltac:(lia) Hfr Htr Hall).
      pose proof (max_step_rep i j Hw ltac:(lia) ltac:(lia)) as Hstep.
      rewrite Hfc, Htc in Hstep.
      destruct (Ascii.eqb_spec (MinEdit.from_ch e) (MinEdit.to_ch e)) as [Heq|_].
      * exfalso. apply (Hrp eq_refl). exact Heq.
      * lia.
Qed.

End MaxOptimal.

(** X12.  Let the costs lie between 0 and [C] with
    [(length from + length to) * C] below [2^32].  Then the cost the
    second version stores in the terminal cell
    [edit_matrix[to_length][from_length]] is the cost of a dearest edit
    script from [from] to [to]: some list of edits that turns [from] into
    [to] costs exactly that much, and none costs more. *)
Theorem X12_max_terminal_cell_is_dearest_script from to costs (C : Z) :
  fits from -> fits to ->
  no_wrap from to costs C ->
  exists edit_matrix cell,
    MaxEdit.build_matrix from to costs = Ret edit_matrix /\
    mget edit_matrix (str_length to) (str_length from) = Ret cell /\
    (exists script,
        is_script script from to /\
        MinEdit.exact_cost costs script = MaxEdit.cost cell) /\
    (forall other, is_script other from to ->
       MinEdit.exact_cost costs other <= MaxEdit.cost cell).
Proof.
  intros Hf Ht Hw.
  destruct (max_build_grid from to costs Hf Ht) as (mx & Hb & Hg).
  exists mx, (Engine.spec_cell max_engine from to costs
                (String.length to) (String.length from)).
  split; [exact Hb|]. split.
  { rewrite !str_length_fits by assumption. apply (grid_mget _ _ _ _ _ _ Hg); lia. }
  split.
  - destruct (cell_cost_attained max_engine from to costs C _
                (String.length to) (String.length from) Hw eq_refl
                ltac:(lia) ltac:(lia)) as (l & Hfs & Hts & Hall & Hex).
    exists l. split; [|exact Hex].
    unfold is_script. rewrite Hfs, Hts.
    rewrite <- (length_list_ascii from) at 1. rewrite <- (length_list_ascii to) at 1.
    rewrite !firstn_all. auto.
  - intros other (Hfs & Hts & Hall).
    pose proof (script_upper_bound from to costs C other Hw O O
                  ltac:(lia) ltac:(lia) Hfs Hts Hall) as Hub.
    change (MaxEdit.cost (Engine.spec_cell max_engine from to costs 0 0)) with 0 in Hub.
    lia.
Qed.

Lemma X12_witness :
  exists edit_matrix cell,
    MaxEdit.build_matrix "kitten" "sitting" MaxEdit.std_edit_costs = Ret edit_matrix /\
    mget edit_matrix (str_length "sitting") (str_length "kitten") = Ret cell /\
    (exists script,
        is_script script "kitten" "sitting" /\
        MinEdit.exact_cost MaxEdit.std_edit_costs script = MaxEdit.cost cell) /\
    (forall other, is_script other "kitten" "sitting" ->
       MinEdit.exact_cost MaxEdit.std_edit_costs other <= MaxEdit.cost cell).
Proof.
  apply (X12_max_terminal_cell_is_dearest_script "kitten" "sitting"
           MaxEdit.std_edit_costs 10).
  - unfold fits. vm_compute. reflexivity.
  - unfold fits. vm_compute. reflexivity.
  - split.
    + intros t. destruct t; simpl; lia.
    + vm_compute. reflexivity.
Defined.

(** ** Raising costs *)

(** X13.  Without wrap, raising any of the four costs never lowers the
    result: if every cost of [costs1] is at most the cost of [costs2] for
    the same type, the alignment the first version returns under
    [costs1] costs at most the one it returns under [costs2], and the
    terminal cell of the second version under [costs1] holds at most what
    it holds under [costs2]. *)
Theorem X13_costs_monotone from to costs1 costs2 (C : Z) (fuel : nat) :
  fits from -> fits to ->
  (String.length from + String.length to <= fuel)%nat ->
  no_wrap from to costs2 C ->
  (forall t, 0 <= cost_at costs1 t <= cost_at costs2 t) ->
  (exists edits1 edits2,
      MinEdit.compute_optimal_edits fuel from to costs1 = Ret edits1 /\
      MinEdit.compute_optimal_edits fuel from to costs2 = Ret edits2 /\
      MinEdit.exact_cost costs1 edits1 <= MinEdit.exact_cost costs2 edits2) /\
  (exists matrix1 matrix2 cell1 cell2,
      MaxEdit.build_matrix from to costs1 = Ret matrix1 /\
      MaxEdit.build_matrix from to costs2 = Ret matrix2 /\
      mget matrix1 (str_length to) (str_length from) = Ret cell1 /\
      mget matrix2 (str_length to) (str_length from) = Ret cell2 /\
      MaxEdit.cost cell1 <= MaxEdit.cost cell2).
Proof.
  intros Hf Ht Hfuel Hw2 Hle.
  assert (Hw1 : no_wrap from to costs1 C).
  { destruct Hw2 as [Hc Hwr]. split; [|exact Hwr].
    intros t. specialize (Hc t). specialize (Hle t). lia. }
  assert (Hle' : forall t, cost_at costs1 t <= cost_at costs2 t).
  { intros t. specialize (Hle t). lia. }
  split.
  - destruct (min_total_no_wrap from to costs1 C fuel Hf Ht Hfuel Hw1)
      as (edits1 & Hrun1 & Hcost1 & Hex1).
    destruct (min_total_no_wrap from to costs2 C fuel Hf Ht Hfuel Hw2)
      as (edits2 & Hrun2 & Hcost2 & Hex2).
    exists edits1, edits2. split; [exact Hrun1|]. split; [exact Hrun2|].
    rewrite Hex1, Hex2, Hcost1, Hcost2.
    apply (spec_cost_mono min_engine from to costs1 costs2 C);
      try assumption; try lia.
    intros a b c a' b' c' rt Ha Hb Hc.
    change (better min_engine) with Z.ltb. rewrite !choose_edit_min. lia.
  - destruct (max_build_grid from to costs1 Hf Ht) as (mx1 & Hb1 & Hg1).
    destruct (max_build_grid from to costs2 Hf Ht) as (mx2 & Hb2 & Hg2).
    exists mx1, mx2,
      (Engine.spec_cell max_engine from to costs1
         (String.length to) (String.length from)),
      (Engine.spec_cell max_engine from to costs2
         (String.length to) (String.length from)).
    split; [exact Hb1|]. split; [exact Hb2|].
    rewrite !str_length_fits by assumption.
    split; [apply (grid_mget _ _ _ _ _ _ Hg1); lia|].
    split; [apply (grid_mget _ _ _ _ _ _ Hg2); lia|].
    apply (spec_cost_mono max_engine from to costs1 costs2 C);
      try assumption; try lia.
    intros a b c a' b' c' rt Ha Hb Hc.
    change (better max_engine) with Z.gtb. rewrite !choose_edit_max. lia.
Qed.

Lemma X13_witness :
  (exists edits1 edits2,
      MinEdit.compute_optimal_edits 13 "kitten" "sitting" MaxEdit.std_edit_costs
      = Ret edits1 /\
      MinEdit.compute_optimal_edits 13 "kitten" "sitting" MinEdit.std_edit_costs
      = Ret edits2 /\
      MinEdit.exact_cost MaxEdit.std_edit_costs edits1
      <= MinEdit.exact_cost MinEdit.std_edit_costs edits2) /\
  (exists matrix1 matrix2 cell1 cell2,
      MaxEdit.build_matrix "kitten" "sitting" MaxEdit.std_edit_costs = Ret matrix1 /\
      MaxEdit.build_matrix "kitten" "sitting" MinEdit.std_edit_costs = Ret matrix2 /\
      mget matrix1 (str_length "sitting") (str_length "kitten") = Ret cell1 /\
      mget matrix2 (str_length "sitting") (str_length "kitten") = Ret cell2 /\
      MaxEdit.cost cell1 <= MaxEdit.cost cell2).
Proof.
  apply (X13_costs_monotone "kitten" "sitting" MaxEdit.std_edit_costs
           MinEdit.std_edit_costs 15 13).
  - unfold fits. vm_compute. reflexivity.
  - unfold fits. vm_compute. reflexivity.
  - simpl. lia.
  - split.
    + intros t. destruct t; simpl; lia.
    + vm_compute. reflexivity.
  - intros t. destruct t; simpl; lia.
Defined.

(* ===================================================================== *)
(** * Part V: the order of assignments and reads *)
(* ===================================================================== *)


Section TraceProofs.
Context {N : Type} (e : engine N) (from to : string) (costs : EditCosts).

Local Abbreviation spec := (Engine.spec_cell e from to costs).
Local Abbreviation state := (EngineTrace.state_is e from to costs).
Local Abbreviation m := (String.length from).
Local Abbreviation n := (String.length to).















End TraceProofs.

(** The logged fill of each version is the logged fill of its engine. *)

Lemma min_trace_fill_cell from to costs to_idx from_idx st :
  MinTrace.fill_cell from to costs to_idx from_idx st
  = EngineTrace.fill_cell min_engine from to costs to_idx from_idx st.
Proof. reflexivity. Qed.





Lemma max_trace_fill_cell from to costs to_idx from_idx st :
  MaxTrace.fill_cell from to costs to_idx from_idx st
  = EngineTrace.fill_cell max_engine from to costs to_idx from_idx st.
Proof. reflexivity. Qed.






(* ===================================================================== *)
(** * Part VI: the properties of the specification, continued *)
(* ===================================================================== *)




(** C3, the claim as stated fails when the sum of the costs does not fit
    an [unsigned]: for [from = "ab"], [to = "cd"] and the costs 0 for SKIP,
    [2^30] for DELETE and INSERT and [2^31 + 1] for REPLACE, the first
    version returns two INSERTs and two DELETEs, whose configured costs sum
    to [2^32], and the terminal cell stores the cost 0. *)
Lemma C3_counterexample :
  exists edit_matrix cell,
    MinEdit.build_matrix "ab" "cd" (mkEditCosts 0 1073741824 1073741824 2147483649)
    = Ret edit_matrix /\
    MinEdit.compute_optimal_edits 4 "ab" "cd"
      (mkEditCosts 0 1073741824 1073741824 2147483649)
    = Ret [MinEdit.mkEdit INSERT zero "c"; MinEdit.mkEdit INSERT zero "d";
           MinEdit.mkEdit DELETE "a" "d"; MinEdit.mkEdit DELETE "b" "d"] /\
    MinEdit.exact_cost (mkEditCosts 0 1073741824 1073741824 2147483649)
      [MinEdit.mkEdit INSERT zero "c"; MinEdit.mkEdit INSERT zero "d";
       MinEdit.mkEdit DELETE "a" "d"; MinEdit.mkEdit DELETE "b" "d"]
    = 4294967296 /\
    mget edit_matrix (str_length "cd") (str_length "ab") = Ret cell /\
    MinEdit.cost cell = 0 /\
    MinEdit.exact_cost (mkEditCosts 0 1073741824 1073741824 2147483649)
      [MinEdit.mkEdit INSERT zero "c"; MinEdit.mkEdit INSERT zero "d";
       MinEdit.mkEdit DELETE "a" "d"; MinEdit.mkEdit DELETE "b" "d"]
    <> MinEdit.cost cell.
Proof.
  eexists. eexists.
  split; [vm_compute; reflexivity|].
  split; [vm_compute; reflexivity|].
  split; [vm_compute; reflexivity|].
  split; [vm_compute; reflexivity|].
  split; [vm_compute; reflexivity|].
  vm_compute. discriminate.
Qed.

(** C3.  With fuel for the loop, the first version returns edits whose
    configured costs, summed in [unsigned], are the cost stored in the
    terminal cell [edit_matrix[to_length][from_length]]; the sum in
    unbounded integers is the same number modulo [2^32], hence the same
    number whenever it fits an [unsigned], and it does whenever the costs
    lie between 0 and a bound [C] with [(from_length + to_length) * C]
    below [2^32]. *)
Theorem C3_total_cost_is_terminal_cell from to costs (fuel : nat) :
  fits from -> fits to ->
  (String.length from + String.length to <= fuel)%nat ->
  exists edit_matrix edits cell,
    MinEdit.build_matrix from to costs = Ret edit_matrix /\
    MinEdit.compute_optimal_edits fuel from to costs = Ret edits /\
    mget edit_matrix (str_length to) (str_length from) = Ret cell /\
    MinEdit.total_cost costs edits = MinEdit.cost cell /\
    (MinEdit.exact_cost costs edits) mod uint_modulus = MinEdit.cost cell /\
    (0 <= MinEdit.exact_cost costs edits < uint_modulus ->
     MinEdit.exact_cost costs edits = MinEdit.cost cell) /\
    (forall C, no_wrap from to costs C ->
               MinEdit.exact_cost costs edits = MinEdit.cost cell).
Proof.
  intros Hf Ht Hfuel.
  destruct (min_compute_spec from to costs fuel Hf Ht Hfuel)
    as (mx & edits & Hb & Hg & Hrun & _ & _ & Hcost).
  exists mx, edits, (Engine.spec_cell min_engine from to costs
                       (String.length to) (String.length from)).
  split; [exact Hb|]. split; [exact Hrun|].
  split.
  { rewrite !str_length_fits by assumption. apply (grid_mget _ _ _ _ _ _ Hg); lia. }
  split; [exact Hcost|].
  pose proof Hcost as Hmod. rewrite total_cost_exact in Hmod. unfold uwrap in Hmod.
  split; [exact Hmod|].
  split.
  { intros Hsmall. rewrite <- Hmod. symmetry. apply Z.mod_small. exact Hsmall. }
  intros C Hw.
  destruct (min_total_no_wrap from to costs C fuel Hf Ht Hfuel Hw)
    as (edits' & Hrun' & _ & Hex).
  assert (edits' = edits) by congruence. subst edits'.
  rewrite Hex. exact Hcost.
Qed.

Lemma C3_witness :
  no_wrap "kitten" "sitting" MinEdit.std_edit_costs 15 /\
  exists edit_matrix edits cell,
    MinEdit.build_matrix "kitten" "sitting" MinEdit.std_edit_costs = Ret edit_matrix /\
    MinEdit.compute_optimal_edits 13 "kitten" "sitting" MinEdit.std_edit_costs = Ret edits /\
    mget edit_matrix (str_length "sitting") (str_length "kitten") = Ret cell /\
    MinEdit.total_cost MinEdit.std_edit_costs edits = MinEdit.cost cell /\
    (MinEdit.exact_cost MinEdit.std_edit_costs edits) mod uint_modulus = MinEdit.cost cell /\
    (0 <= MinEdit.exact_cost MinEdit.std_edit_costs edits < uint_modulus ->
     MinEdit.exact_cost MinEdit.std_edit_costs edits = MinEdit.cost cell) /\
    (forall C, no_wrap "kitten" "sitting" MinEdit.std_edit_costs C ->
               MinEdit.exact_cost MinEdit.std_edit_costs edits = MinEdit.cost cell).
Proof.
  split.
  { split; [|vm_compute; reflexivity].
    intros t. destruct t; vm_compute; split; discriminate. }
  apply (C3_total_cost_is_terminal_cell "kitten" "sitting" MinEdit.std_edit_costs 13).
  - unfold fits. vm_compute. reflexivity.
  - unfold fits. vm_compute. reflexivity.
  - simpl. lia.
Defined.
